(** * recipe_bridge: HelloFresh to Mealie synchronisation

    A shallow embedding of [recipe_bridge.py].  Decoded JSON documents are
    a small inductive type, Python's dynamic failures (KeyError, IndexError,
    TypeError, AttributeError) and [exit(n)] are outcomes of an error/state
    monad, and the network is an oracle that answers each request from the
    exchanges seen so far.  Every HTTP exchange and every logging call is
    recorded in the world, so that properties about "how many calls" and
    "what was sent" are properties of the recorded trace. *)

From Stdlib Require Import ZArith String List Ascii Lia Bool.
From stdpp Require Import gmap strings list pretty.

Open Scope string_scope.
Open Scope list_scope.
Open Scope Z_scope.

Set Warnings "-register-all,-clear-no-such-hyp".

(** ** Decoded JSON values, as [r.json()] returns them *)

(** A JSON object is the decoded [dict]: an insertion-ordered list of
    fields, read by its first binding of a key.  Numbers are integers. *)
Inductive json : Type :=
| JNull
| JBool (b : bool)
| JNum (n : Z)
| JStr (s : string)
| JArr (items : list json)
| JObj (fields : list (string * json)).

Abbreviation dict := (list (string * json)).

(** [d.get(k)] on the field list. *)
Fixpoint dict_get (k : string) (d : dict) : option json :=
  match d with
  | [] => None
  | (k', v) :: d' => if String.eqb k k' then Some v else dict_get k d'
  end.

(** [d[k] = v]: overwrite in place when the key exists, append otherwise. *)
Fixpoint dict_set (k : string) (v : json) (d : dict) : dict :=
  match d with
  | [] => [(k, v)]
  | (k', v') :: d' =>
      if String.eqb k k' then (k', v) :: d' else (k', v') :: dict_set k v d'
  end.

(** ** Python outcomes *)

Inductive exn := KeyError | IndexError | TypeError | AttributeError.

(** [Return] is normal completion, [Raise] an exception that nobody has
    caught yet, [SysExit] the [SystemExit] raised by [exit(code)], and
    [OutOfFuel] the running out of the fuel of a [while True] loop. *)
Inductive outcome (A : Type) : Type :=
| Return (a : A)
| Raise (e : exn)
| SysExit (code : Z)
| OutOfFuel.
Arguments Return {A} a.
Arguments Raise {A} e.
Arguments SysExit {A} code.
Arguments OutOfFuel {A}.

Definition obind {A B} (r : outcome A) (k : A → outcome B) : outcome B :=
  match r with
  | Return a => k a
  | Raise e => Raise e
  | SysExit c => SysExit c
  | OutOfFuel => OutOfFuel
  end.

(** [x[k]] for a string key. *)
Definition getitem_str (x : json) (k : string) : outcome json :=
  match x with
  | JObj d => match dict_get k d with
              | Some v => Return v
              | None => Raise KeyError
              end
  | _ => Raise TypeError
  end.

(** [x[i]] for a non-negative integer index.  A dict decoded from JSON
    has string keys only, so an integer key is always missing. *)
Definition getitem_int (x : json) (i : nat) : outcome json :=
  match x with
  | JArr l => match nth_error l i with
              | Some v => Return v
              | None => Raise IndexError
              end
  | JStr s => match String.get i s with
              | Some c => Return (JStr (String c EmptyString))
              | None => Raise IndexError
              end
  | JObj _ => Raise KeyError
  | _ => Raise TypeError
  end.

(** Truth value of an object, as [not x] and [if x] test it. *)
Definition truthy (x : json) : bool :=
  match x with
  | JNull => false
  | JBool b => b
  | JNum n => negb (n =? 0)
  | JStr s => negb (String.eqb s "")
  | JArr l => match l with [] => false | _ => true end
  | JObj d => match d with [] => false | _ => true end
  end.

Fixpoint chars (s : string) : list json :=
  match s with
  | EmptyString => []
  | String c s' => JStr (String c EmptyString) :: chars s'
  end.

(** [for y in x]: the sequence a [for] loop or a comprehension walks. *)
Definition py_iter (x : json) : outcome (list json) :=
  match x with
  | JArr l => Return l
  | JStr s => Return (chars s)
  | JObj d => Return (map (λ kv, JStr (fst kv)) d)
  | _ => Raise TypeError
  end.

(** Members of a Python [set]: the hashable decoded values.  Python
    identifies [True] with [1] and [False] with [0] in a set; the
    embedding keeps the integer. *)
Inductive hashable := HNone | HInt (n : Z) | HStr (s : string).

#[global] Instance hashable_eq_dec : EqDecision hashable.
Proof. solve_decision. Defined.

#[global] Instance hashable_countable : Countable hashable.
Proof.
  refine (inj_countable'
    (λ h, match h with
          | HNone => inl ()
          | HInt n => inr (inl n)
          | HStr s => inr (inr s)
          end)
    (λ x, match x with
          | inl _ => HNone
          | inr (inl n) => HInt n
          | inr (inr s) => HStr s
          end) _).
  by intros [].
Defined.

(** [hash(x)], as [set.add] and a set comprehension need it: lists and
    dicts are unhashable. *)
Definition py_hash (x : json) : outcome hashable :=
  match x with
  | JNull => Return HNone
  | JBool b => Return (HInt (if b then 1 else 0))
  | JNum n => Return (HInt n)
  | JStr s => Return (HStr s)
  | JArr _ | JObj _ => Raise TypeError
  end.

Definition json_of_hashable (h : hashable) : json :=
  match h with
  | HNone => JNull
  | HInt n => JNum n
  | HStr s => JStr s
  end.

(** [str.upper()] and [str.lower()].  A Python [str] is held here as a
    string of ASCII characters, and on such a string the two methods move
    the letters a-z and A-Z and nothing else, which is what [upper] and
    [lower] compute.  Python's methods are Unicode-aware: on a string with
    a character outside ASCII they do more (the sharp s becomes SS, an
    accented letter changes case), so a statement that depends on the value of
    [upper] or [lower] for a string it does not fix assumes [ascii_only].
    [main] calls them on the country and the language of the command
    line, which [argparse] restricts to [eligible_countries] and
    [eligible_languages]. *)
Definition upper_ascii (c : ascii) : ascii :=
  let n := nat_of_ascii c in
  if ((97 <=? n) && (n <=? 122))%nat then ascii_of_nat (n - 32) else c.

Definition lower_ascii (c : ascii) : ascii :=
  let n := nat_of_ascii c in
  if ((65 <=? n) && (n <=? 90))%nat then ascii_of_nat (n + 32) else c.

Fixpoint upper (s : string) : string :=
  match s with
  | EmptyString => EmptyString
  | String c s' => String (upper_ascii c) (upper s')
  end.

Fixpoint lower (s : string) : string :=
  match s with
  | EmptyString => EmptyString
  | String c s' => String (lower_ascii c) (lower s')
  end.

Definition ascii_only (s : string) : bool :=
  forallb (λ c, (nat_of_ascii c <? 128)%nat) (list_ascii_of_string s).

(** ** Dates: [datetime.date] and its ISO calendar *)

Module datetime.

Record date := { year : Z; month : Z; day : Z }.

Definition is_leap (y : Z) : bool :=
  (y mod 4 =? 0) && (negb (y mod 100 =? 0) || (y mod 400 =? 0)).

Definition days_before_year (y : Z) : Z :=
  let y' := y - 1 in y' * 365 + y' / 4 - y' / 100 + y' / 400.

Definition days_in_month (y m : Z) : Z :=
  if m =? 2 then (if is_leap y then 29 else 28)
  else if (m =? 4) || (m =? 6) || (m =? 9) || (m =? 11) then 30
  else 31.

(** Days of the year [y] that precede the first day of month [m]. *)
Definition days_before_month (y m : Z) : Z :=
  fold_right Z.add 0
    (map (λ k, days_in_month y (Z.of_nat k)) (seq 1 (Z.to_nat (m - 1)))).

(** The proleptic Gregorian ordinal: 0001-01-01 is day 1. *)
Definition ymd2ord (y m d : Z) : Z :=
  days_before_year y + days_before_month y m + d.

Definition toordinal (t : date) : Z := ymd2ord (year t) (month t) (day t).

(** Ordinal of the Monday that starts ISO week 1 of year [y]: the week
    that holds the year's first Thursday. *)
Definition isoweek1monday (y : Z) : Z :=
  let firstday := ymd2ord y 1 1 in
  let firstweekday := (firstday + 6) mod 7 in
  let week1monday := firstday - firstweekday in
  if 3 <? firstweekday then week1monday + 7 else week1monday.

(** [date.isocalendar()]: ISO year, ISO week (1..53), ISO weekday (1..7). *)
Definition isocalendar (t : date) : Z * Z * Z :=
  let y := year t in
  let today := toordinal t in
  let week := (today - isoweek1monday y) / 7 in
  let wd := (today - isoweek1monday y) mod 7 in
  if week <? 0 then
    let w1 := isoweek1monday (y - 1) in
    (y - 1, (today - w1) / 7 + 1, (today - w1) mod 7 + 1)
  else if (52 <=? week) && (isoweek1monday (y + 1) <=? today) then
    (y + 1, 1, wd + 1)
  else (y, week + 1, wd + 1).

Definition iso_year (t : date) : Z := fst (fst (isocalendar t)).
Definition iso_week (t : date) : Z := snd (fst (isocalendar t)).

(** A number printed on two digits, zero padded. *)
Definition two_digits (n : Z) : string :=
  if n <? 10 then "0" +:+ pretty n else pretty n.

(** [strftime('%V')]: the ISO 8601 week number as a decimal number,
    01 to 53. *)
Definition strftime_V (t : date) : string := two_digits (iso_week t).

End datetime.

(** ** The world: network, clock, environment, trace and log *)

Record request := {
  method : string;
  url : string;
  headers : option (list (string * string));
  params : option dict;
  body : option json
}.

(** What one call of [requests.get/post/patch] meets: no response at all
    (connection failure, timeout, ...: a [RequestException]), or a
    response with its status code and, when the payload decodes as JSON,
    the decoded document. *)
Inductive http_result :=
| TransportError
| Response (status : Z) (payload : option json).

Abbreviation exchange := (request * http_result)%type.

Inductive level := DEBUG | INFO | ERROR.

(** The log messages of the program, with their interpolated values. *)
Inductive message :=
| UnsupportedVerb (m : string)
| RequestError
| JsonDecodeError
| MissingEnvVar (name : string)
| AddingCustomerId (id : json)
| SettingFrom
| GettingRecipeUrl (u : json)
| GettingLastMonth
| GettingMore
| NoMoreDeliveries (asked : Z)
| TagCreated (tag : string)
| GettingTagInfos (tag : string)
| TagMissing (tag : string)
| CreatingRecipe (u : json)
| GettingRecipeId
| PatchingRecipe
| Scrapped (n : nat)
| WouldHaveAdded (n : nat)
| RecipeLine (u : json)
| AllExist.

Record world := {
  net : list exchange → request → http_result;
  clock : datetime.date;
  environ : string → option string;
  trace : list exchange;
  log : list (level * message)
}.

Definition M (A : Type) : Type := world → outcome A * world.

Definition ret {A} (a : A) : M A := λ w, (Return a, w).

Definition bind {A B} (m : M A) (k : A → M B) : M B :=
  λ w, match m w with
       | (Return a, w') => k a w'
       | (Raise e, w') => (Raise e, w')
       | (SysExit c, w') => (SysExit c, w')
       | (OutOfFuel, w') => (OutOfFuel, w')
       end.

Declare Scope py_scope.
Delimit Scope py_scope with py.
Notation "x <- c1 ;; c2" := (bind c1 (λ x, c2))
  (at level 100, c1 at next level, right associativity) : py_scope.
Notation "c1 ;; c2" := (bind c1 (λ _, c2))
  (at level 100, right associativity) : py_scope.
Open Scope py_scope.

(** A pure Python expression evaluated in the current world. *)
Definition lift {A} (r : outcome A) : M A := λ w, (r, w).

Definition raise {A} (e : exn) : M A := lift (Raise e).

(** [exit(code)]. *)
Definition sys_exit {A} (code : Z) : M A := lift (SysExit code).

Definition logging (l : level) (m : message) : M unit :=
  λ w, (Return tt,
        {| net := net w; clock := clock w; environ := environ w;
           trace := trace w; log := log w ++ [(l, m)] |}).

(** One HTTP call: the network answers, the exchange is recorded. *)
Definition http (rq : request) : M http_result :=
  λ w, let r := net w (trace w) rq in
       (Return r,
        {| net := net w; clock := clock w; environ := environ w;
           trace := trace w ++ [(rq, r)]; log := log w |}).

Definition date_today : M datetime.date := λ w, (Return (clock w), w).

Definition getenv (name : string) : M (option string) :=
  λ w, (Return (environ w name), w).

(** A [for] loop whose body updates the loop-carried state. *)
Fixpoint for_each {A St} (l : list A) (body : St → A → M St) (st : St)
  : M St :=
  match l with
  | [] => ret st
  | x :: l' => st' <- body st x ;; for_each l' body st'
  end.

(** ** HttpResponder *)

Module HttpResponder.

(** [Response.raise_for_status()] of the requests library raises
    [HTTPError] for the 4xx and 5xx status codes and for no other. *)
Definition raise_for_status (status : Z) : bool :=
  (400 <=? status) && (status <? 600).

(** The body of each [with requests.<verb>(...) as r] block together
    with the two [except] clauses: what becomes of the call's result. *)
Definition settle (r : http_result) : M json :=
  match r with
  | TransportError => logging ERROR RequestError ;; sys_exit 1
  | Response status payload =>
      if raise_for_status status then
        logging ERROR RequestError ;; sys_exit 1
      else
        match payload with
        | Some j => ret j
        | None => logging ERROR JsonDecodeError ;; sys_exit 1
        end
  end.

Definition json_request (url method : string)
    (headers : option (list (string * string)))
    (params : option dict) (data : option json) : M json :=
  if String.eqb method "get" then
    r <- http {| method := "get"; url := url; headers := headers;
                 params := params; body := None |} ;;
    settle r
  else if String.eqb method "post" then
    r <- http {| method := "post"; url := url; headers := headers;
                 params := params; body := data |} ;;
    settle r
  else if String.eqb method "patch" then
    r <- http {| method := "patch"; url := url; headers := headers;
                 params := params; body := data |} ;;
    settle r
  else
    logging ERROR (UnsupportedVerb method) ;; sys_exit 1.

End HttpResponder.

Import HttpResponder.

(** ** HelloFresh: the source account client *)

Module HelloFresh.

Record t := {
  base_url : string;
  auth_token : string;
  recipes : gset hashable;
  headers : list (string * string);
  params : dict
}.

Definition init (base_url auth_token country language : string) : t :=
  {| base_url := base_url;
     auth_token := auth_token;
     recipes := ∅;
     headers := [("authorization", auth_token);
                 ("accept", "application/json");
                 ("Content-Type", "application/json")];
     params := [("country", JStr (upper country));
                ("locale", JStr (lower country +:+ "-" +:+ upper language))]
  |}.

(** [self.params[k] = v] *)
Definition set_param (self : t) (k : string) (v : json) : t :=
  {| base_url := base_url self; auth_token := auth_token self;
     recipes := recipes self; headers := headers self;
     params := dict_set k v (params self) |}.

Definition with_recipes (self : t) (s : gset hashable) : t :=
  {| base_url := base_url self; auth_token := auth_token self;
     recipes := s; headers := headers self; params := params self |}.

(** [self.recipes.add(h)] *)
Definition add_recipe (self : t) (h : hashable) : t :=
  with_recipes self ({[h]} ∪ recipes self).

(** [customer_res["items"][0]["id"]] *)
Definition first_item_id (customer_res : json) : outcome json :=
  obind (getitem_str customer_res "items") (λ items,
  obind (getitem_int items 0) (λ first,
  getitem_str first "id")).

Definition set_customer_id (self : t) : M t :=
  customer_res <- json_request
    (base_url self +:+ "/api/customers/me/subscriptions") "get"
    (Some (headers self)) (Some (params self)) None ;;
  shown <- lift (first_item_id customer_res) ;;
  logging DEBUG (AddingCustomerId shown) ;;
  id <- lift (first_item_id customer_res) ;;
  ret (set_param self "subscription" id).

Definition set_current_week (self : t) : M t :=
  today <- date_today ;;
  logging DEBUG SettingFrom ;;
  ret (set_param self "from"
         (JStr (pretty (datetime.year today) +:+ "-W"
                +:+ datetime.strftime_V today))).

(** The body of the inner loop of [add_monthly_recipes]. *)
Definition add_meal (self : t) (meal : json) : M t :=
  shown <- lift (getitem_str meal "websiteURL") ;;
  logging DEBUG (GettingRecipeUrl shown) ;;
  website_url <- lift (getitem_str meal "websiteURL") ;;
  h <- lift (py_hash website_url) ;;
  ret (add_recipe self h).

(** The body of the outer loop of [add_monthly_recipes]. *)
Definition add_weekly_delivery (self : t) (weekly_delivery : json) : M t :=
  meals <- lift (getitem_str weekly_delivery "meals") ;;
  meals <- lift (py_iter meals) ;;
  for_each meals add_meal self.

Definition add_monthly_recipes (self : t) (deliveries : json) : M t :=
  weeks <- lift (getitem_str deliveries "weeks") ;;
  weekly_deliveries <- lift (py_iter weeks) ;;
  for_each weekly_deliveries add_weekly_delivery self.

(** The [while True] loop of [get_past_deliveries]; [fuel] bounds the
    number of times the loop may go round again. *)
Fixpoint past_deliveries_loop (fuel : nat) (self : t)
    (additional_deliveries : Z) : M t :=
  most_recent_deliveries <- json_request
    (base_url self +:+ "/my-deliveries/past-deliveries") "get"
    (Some (headers self)) (Some (params self)) None ;;
  self <- add_monthly_recipes self most_recent_deliveries ;;
  if 0 <? additional_deliveries then
    logging DEBUG GettingMore ;;
    match getitem_str most_recent_deliveries "nextWeek" with
    | Return next_week =>
        match fuel with
        | O => lift OutOfFuel
        | S fuel' =>
            past_deliveries_loop fuel' (set_param self "from" next_week)
              (additional_deliveries - 1)
        end
    | Raise KeyError =>
        logging ERROR (NoMoreDeliveries additional_deliveries) ;;
        ret self
    | Raise e => raise e
    | SysExit c => sys_exit c
    | OutOfFuel => lift OutOfFuel
    end
  else ret self.

Definition get_past_deliveries (self : t) (additional_deliveries : Z)
  : M t :=
  logging DEBUG GettingLastMonth ;;
  past_deliveries_loop (Z.to_nat additional_deliveries) self
    additional_deliveries.

End HelloFresh.

(** ** Mealie: the destination catalog client *)

Module Mealie.

(** [tag] is the attribute [self.tag], absent until [set_tag_id] or
    [create_tag] has assigned it. *)
Record t := {
  base_url : string;
  auth_token : string;
  headers : list (string * string);
  tagged_recipes : gset hashable;
  tag : option json
}.

Definition init (base_url auth_token : string) : t :=
  {| base_url := base_url;
     auth_token := auth_token;
     headers := [("Authorization", auth_token);
                 ("accept", "application/json");
                 ("Content-Type", "application/json")];
     tagged_recipes := ∅;
     tag := None |}.

Definition set_tag (self : t) (v : json) : t :=
  {| base_url := base_url self; auth_token := auth_token self;
     headers := headers self; tagged_recipes := tagged_recipes self;
     tag := Some v |}.

Definition set_tagged_recipes (self : t) (s : gset hashable) : t :=
  {| base_url := base_url self; auth_token := auth_token self;
     headers := headers self; tagged_recipes := s; tag := tag self |}.

(** Reading [self.tag]. *)
Definition get_tag (self : t) : M json :=
  match tag self with
  | Some v => ret v
  | None => raise AttributeError
  end.

Definition create_tag (self : t) (tag : string) : M t :=
  created <- json_request (base_url self +:+ "/api/organizers/tags") "post"
    (Some (headers self)) None (Some (JObj [("name", JStr tag)])) ;;
  logging DEBUG (TagCreated tag) ;;
  ret (set_tag self created).

Definition set_tag_id (self : t) (tag : string) : M t :=
  logging DEBUG (GettingTagInfos tag) ;;
  tag_id_res <- json_request (base_url self +:+ "/api/organizers/tags")
    "get" (Some (headers self)) (Some [("search", JStr tag)]) None ;;
  items <- lift (getitem_str tag_id_res "items") ;;
  if negb (truthy items) then
    logging INFO (TagMissing tag) ;;
    create_tag self tag
  else
    items <- lift (getitem_str tag_id_res "items") ;;
    first <- lift (getitem_int items 0) ;;
    ret (set_tag self first).

Definition get_tagged_recipes (self : t) (tag : string) : M t :=
  self <- set_tag_id self tag ;;
  the_tag <- get_tag self ;;
  tagged_recipes_nb_res <- json_request (base_url self +:+ "/api/recipes")
    "get" (Some (headers self))
    (Some [("tags", the_tag); ("perPage", JNum 0)]) None ;;
  tagged_recipes_nb <- lift (getitem_str tagged_recipes_nb_res "total") ;;
  the_tag <- get_tag self ;;
  tagged_recipes_res <- json_request (base_url self +:+ "/api/recipes")
    "get" (Some (headers self))
    (Some [("tags", the_tag); ("perPage", tagged_recipes_nb)]) None ;;
  items <- lift (getitem_str tagged_recipes_res "items") ;;
  found <- lift (py_iter items) ;;
  urls <- for_each found (λ (acc : gset hashable) recipe,
    org_url <- lift (getitem_str recipe "orgURL") ;;
    h <- lift (py_hash org_url) ;;
    ret ({[h]} ∪ acc)) ∅ ;;
  ret (set_tagged_recipes self urls).

Section WithFormat.

(** [str(x)] of a decoded JSON value, as an f-string interpolates it. *)
Variable py_str : json → string.

Definition add_mealie_recipe (self : t) (recipe_url : json) : M json :=
  logging INFO (CreatingRecipe recipe_url) ;;
  json_request (base_url self +:+ "/api/recipes/create/url") "post"
    (Some (headers self)) None (Some (JObj [("url", recipe_url)])).

Definition get_mealie_recipe (self : t) (recipe_slug : json) : M json :=
  logging DEBUG GettingRecipeId ;;
  json_request (base_url self +:+ "/api/recipes/" +:+ py_str recipe_slug)
    "get" (Some (headers self)) None None.

(** [recipe_body["tags"].append(self.tag)]: only a list has [append];
    the list is changed in place, inside [recipe_body]. *)
Definition append_tag (self : t) (recipe_body : json) : M json :=
  tags <- lift (getitem_str recipe_body "tags") ;;
  match tags, recipe_body with
  | JArr l, JObj fields =>
      the_tag <- get_tag self ;;
      ret (JObj (dict_set "tags" (JArr (l ++ [the_tag])) fields))
  | _, _ => raise AttributeError
  end.

Definition update_mealie_recipe (self : t) (recipe_slug : json)
  : M unit :=
  recipe_body <- get_mealie_recipe self recipe_slug ;;
  recipe_body <- append_tag self recipe_body ;;
  logging DEBUG PatchingRecipe ;;
  _ <- json_request
    (base_url self +:+ "/api/recipes/" +:+ py_str recipe_slug) "patch"
    (Some (headers self)) None (Some recipe_body) ;;
  ret tt.

End WithFormat.

End Mealie.

(** ** The driver *)

(** The values [argparse] accepts for [--country] and [--language]. *)
Definition eligible_countries : list string :=
  ["at"; "ch"; "fr"; "lu"; "au"; "de"; "gb"; "nl"; "se"; "be"; "dk"; "ie";
   "no"; "us"; "ca"; "es"; "it"; "nz"].

Definition eligible_languages : list string :=
  ["de"; "fr"; "en"; "nl"; "sv"; "da"; "nb"; "es"; "it"].

(** The parsed command line. *)
Record args := {
  country : string;
  language : string;
  mealie_tag : string;
  additional_deliveries : Z;
  debug : bool;
  dry_run : bool
}.

Section Driver.

Variable py_str : json → string.

(** The order in which the [for] loop of this run walks a Python [set].
    A run walks one set, once, so the order is taken as a function of the
    set; it is the order of one process only.  Another run of the program
    is another process, which hashes its strings with a seed of its own
    and may walk the same set in another order: two runs are given two
    orders. *)
Variable set_order : gset hashable → list hashable.

(** The end of [main], from the [if args.dry_run] test on: what is done
    with the two URL sets once they are known. *)
Definition reconcile (a : args) (hellofresh_client : HelloFresh.t)
    (mealie_client : Mealie.t) : M unit :=
  if dry_run a then
    let new_recipes :=
      HelloFresh.recipes hellofresh_client
        ∖ Mealie.tagged_recipes mealie_client in
    (if (0 <? size new_recipes)%nat then
       logging INFO (WouldHaveAdded (size new_recipes)) ;;
       for_each (set_order new_recipes) (λ _ recipe,
         logging INFO (RecipeLine (json_of_hashable recipe))) tt
     else logging INFO AllExist) ;;
    sys_exit 0
  else
    let new_recipes :=
      HelloFresh.recipes hellofresh_client
        ∖ Mealie.tagged_recipes mealie_client in
    for_each (set_order new_recipes) (λ _ new_recipe,
      recipe_slug <- Mealie.add_mealie_recipe mealie_client
                       (json_of_hashable new_recipe) ;;
      Mealie.update_mealie_recipe py_str mealie_client recipe_slug) tt.

Definition main (a : args) : M unit :=
  hellofresh_token <- getenv "hellofresh_token" ;;
  match hellofresh_token with
  | None => logging ERROR (MissingEnvVar "HELLOFRESH_TOKEN") ;; sys_exit 1
  | Some hellofresh_token =>
  mealie_token <- getenv "mealie_token" ;;
  match mealie_token with
  | None => logging ERROR (MissingEnvVar "MEALIE_TOKEN") ;; sys_exit 1
  | Some mealie_token =>
  let hellofresh_api_url :=
    "https://www.hellofresh." +:+ lower (country a) +:+ "/gw" in
  let hellofresh_client :=
    HelloFresh.init hellofresh_api_url hellofresh_token
      (country a) (language a) in
  hellofresh_client <- HelloFresh.set_customer_id hellofresh_client ;;
  hellofresh_client <- HelloFresh.set_current_week hellofresh_client ;;
  hellofresh_client <- HelloFresh.get_past_deliveries hellofresh_client
                         (additional_deliveries a) ;;
  logging INFO (Scrapped (size (HelloFresh.recipes hellofresh_client))) ;;
  let mealie_api_url := "https://food.syyrell.com" in
  let mealie_client := Mealie.init mealie_api_url mealie_token in
  mealie_client <- Mealie.get_tagged_recipes mealie_client
                     (mealie_tag a) ;;
  reconcile a hellofresh_client mealie_client
  end
  end.

End Driver.

(** ** Observations on a run *)

(** The documents the exchanges of a trace delivered. *)
Definition pages (es : list exchange) : list json :=
  omap (λ e, match snd e with
             | Response _ (Some j) => Some j
             | _ => None
             end) es.

Definition field (k : string) (x : json) : option json :=
  match x with
  | JObj d => dict_get k d
  | _ => None
  end.

Definition members (x : option json) : list json :=
  match x with
  | Some (JArr l) => l
  | _ => []
  end.

(** The [websiteURL] values of the meals of a list, and of a week. *)
Definition meal_urls (meals : list json) : list json :=
  flat_map (λ meal, option_list (field "websiteURL" meal)) meals.

Definition week_urls (week : json) : list json :=
  meal_urls (members (field "meals" week)).

(** The [websiteURL] values of all meals of all weeks of a delivery page. *)
Definition website_urls (page : json) : list json :=
  flat_map (λ week,
    flat_map (λ meal, option_list (field "websiteURL" meal))
             (members (field "meals" week)))
    (members (field "weeks" page)).

Definition key_of (u : json) : option hashable :=
  match py_hash u with
  | Return h => Some h
  | _ => None
  end.

(** The recipe references of a delivery page, as a set. *)
Definition page_recipes (page : json) : gset hashable :=
  list_to_set (omap key_of (website_urls page)).

(** The request [get_past_deliveries] sends for the current cursor. *)
Definition deliveries_request (self : HelloFresh.t) : request :=
  {| method := "get";
     url := HelloFresh.base_url self +:+ "/my-deliveries/past-deliveries";
     headers := Some (HelloFresh.headers self);
     params := Some (HelloFresh.params self);
     body := None |}.

(** The requests of the loop: GETs of the delivery history. *)
Definition delivery_fetch (base : string) (rq : request) : Prop :=
  method rq = "get" ∧ url rq = base +:+ "/my-deliveries/past-deliveries".

(** A response that [json_request] hands back to its caller. *)
Definition accepted (r : http_result) : option json :=
  match r with
  | Response status (Some j) =>
      if raise_for_status status then None else Some j
  | _ => None
  end.

Definition supported (method : string) : bool :=
  String.eqb method "get" || String.eqb method "post"
  || String.eqb method "patch".

Definition errors (l : list (level * message)) : list message :=
  omap (λ e, match fst e with ERROR => Some (snd e) | _ => None end) l.

(** The three requests of one import, and the document sent back. *)
Definition creation_request (m : Mealie.t) (u : json) : request :=
  {| method := "post";
     url := Mealie.base_url m +:+ "/api/recipes/create/url";
     headers := Some (Mealie.headers m);
     params := None;
     body := Some (JObj [("url", u)]) |}.

Definition recipe_request (py_str : json → string) (m : Mealie.t)
    (slug : json) : request :=
  {| method := "get";
     url := Mealie.base_url m +:+ "/api/recipes/" +:+ py_str slug;
     headers := Some (Mealie.headers m);
     params := None;
     body := None |}.

Definition tagging_request (py_str : json → string) (m : Mealie.t)
    (slug doc : json) : request :=
  {| method := "patch";
     url := Mealie.base_url m +:+ "/api/recipes/" +:+ py_str slug;
     headers := Some (Mealie.headers m);
     params := None;
     body := Some doc |}.

Definition tag_search_request (m : Mealie.t) (tag : string) : request :=
  {| method := "get";
     url := Mealie.base_url m +:+ "/api/organizers/tags";
     headers := Some (Mealie.headers m);
     params := Some [("search", JStr tag)];
     body := None |}.

Definition tag_creation_request (m : Mealie.t) (tag : string) : request :=
  {| method := "post";
     url := Mealie.base_url m +:+ "/api/organizers/tags";
     headers := Some (Mealie.headers m);
     params := None;
     body := Some (JObj [("name", JStr tag)]) |}.

Definition is_creation (rq : request) : bool :=
  String.eqb (method rq) "post"
  && match body rq with
     | Some (JObj [(k, _)]) => String.eqb k "url"
     | _ => false
     end.

Definition is_tagging (rq : request) : bool := String.eqb (method rq) "patch".

(** The document [update_mealie_recipe] sends back for a fetched one. *)
Definition with_tag_appended (doc : json) (the_tag : json) : option json :=
  match doc with
  | JObj fields =>
      match dict_get "tags" fields with
      | Some (JArr l) =>
          Some (JObj (dict_set "tags" (JArr (l ++ [the_tag])) fields))
      | _ => None
      end
  | _ => None
  end.

(** The exchanges of one successful import of [u]: creation, fetch of the
    created recipe by the identifier the creation returned, and the PATCH
    of the fetched document with the tag appended. *)
Definition import_of (py_str : json → string) (m : Mealie.t) (u : hashable)
    (es : list exchange) : Prop :=
  ∃ slug doc patched r1 r2 r3 the_tag,
    es = [(creation_request m (json_of_hashable u), r1);
          (recipe_request py_str m slug, r2);
          (tagging_request py_str m slug patched, r3)]
    ∧ accepted r1 = Some slug
    ∧ accepted r2 = Some doc
    ∧ Mealie.tag m = Some the_tag
    ∧ with_tag_appended doc the_tag = Some patched
    ∧ is_Some (accepted r3).

(** The request a call of [json_request] puts on the wire: a GET carries
    no body. *)
Definition wire (url m : string) (hd : option (list (string * string)))
    (ps : option dict) (data : option json) : request :=
  {| method := m; url := url; headers := hd; params := ps;
     body := if String.eqb m "get" then None else data |}.

(** The world after one exchange. *)
Definition exchanged (w : world) (rq : request) : world :=
  {| net := net w; clock := clock w; environ := environ w;
     trace := trace w ++ [(rq, net w (trace w) rq)]; log := log w |}.

(** The world after one logging call. *)
Definition logged (w : world) (l : level) (msg : message) : world :=
  {| net := net w; clock := clock w; environ := environ w;
     trace := trace w; log := log w ++ [(l, msg)] |}.

(** ** Frames of a run

    [grows P b w w'] says that [w'] is [w] after at most [b] further HTTP
    exchanges, all of them requests that satisfy [P]: the network, the
    clock and the environment are those of [w]. *)
Definition grows (P : request → Prop) (b : nat) (w w' : world) : Prop :=
  net w' = net w ∧ clock w' = clock w ∧ environ w' = environ w
  ∧ ∃ new, trace w' = trace w ++ new
           ∧ Forall (λ e : exchange, P (fst e)) new
           ∧ (length new ≤ b)%nat.

(** A computation that makes at most [b] exchanges, whatever its outcome. *)
Definition bounded {A} (P : request → Prop) (b : nat) (m : M A) : Prop :=
  ∀ w, grows P b w (snd (m w)).

(** A computation that never runs out of fuel. *)
Definition total {A} (m : M A) : Prop := ∀ w, fst (m w) ≠ OutOfFuel.

(** How many recipe creations and how many taggings a trace holds. *)
Definition creation_calls (es : list exchange) : nat :=
  length (List.filter (λ e : exchange, is_creation (fst e)) es).

Definition tagging_calls (es : list exchange) : nat :=
  length (List.filter (λ e : exchange, is_tagging (fst e)) es).

(** The requests of a dry run: reads, and the creation of the run's tag. *)
Definition reads_or_creates_tag (tag : string) (rq : request) : Prop :=
  method rq = "get"
  ∨ (method rq = "post"
     ∧ url rq = "https://food.syyrell.com/api/organizers/tags"
     ∧ body rq = Some (JObj [("name", JStr tag)])).

(** A computation all of whose exchanges are requests that satisfy [P]. *)
Definition confined {A} (P : request → Prop) (m : M A) : Prop :=
  ∀ w, ∃ b, grows P b w (snd (m w)).

(** What the dry run reports for a set of missing recipes. *)
Definition report (order : gset hashable → list hashable)
    (missing : gset hashable) : list (level * message) :=
  if (0 <? size missing)%nat then
    (INFO, WouldHaveAdded (size missing))
    :: map (λ u, (INFO, RecipeLine (json_of_hashable u))) (order missing)
  else [(INFO, AllExist)].

(** The value of an outcome that completed, and a default otherwise. *)
Definition result_of {A} (default : A) (r : outcome A) : A :=
  match r with
  | Return a => a
  | _ => default
  end.

(** ** Concrete worlds *)

(** A network that answers the n-th call of the run with the n-th entry
    of a script, and fails to connect once the script is over. *)
Definition scripted (script : list http_result)
  : list exchange → request → http_result :=
  λ tr _, nth (length tr) script TransportError.

Definition start (network : list exchange → request → http_result)
    (today : datetime.date) : world :=
  {| net := network; clock := today;
     environ := λ _, Some "token"; trace := []; log := [] |}.

Definition good (j : json) : http_result := Response 200 (Some j).

Definition meal (u : string) : json := JObj [("websiteURL", JStr u)].

Definition week (meals : list json) : json := JObj [("meals", JArr meals)].

Definition a_day : datetime.date :=
  {| datetime.year := 2024; datetime.month := 12; datetime.day := 30 |}.

Definition a_client : HelloFresh.t :=
  HelloFresh.init "https://www.hellofresh.fr/gw" "token" "fr" "fr".

(** A delivery history of two pages: the first names its successor, the
    second is the last one. *)
Definition first_page : json :=
  JObj [("weeks", JArr [week [meal "u1"]; week [meal "u1"; meal "u2"]]);
        ("nextWeek", JStr "2024-W51")].

Definition last_page : json :=
  JObj [("weeks", JArr [week [meal "u2"; meal "u3"]])].

Definition two_pages : world :=
  start (scripted [good first_page; good last_page]) a_day.

(** The tag of the examples, and a stored recipe that already carries it. *)
Definition a_tag : json :=
  JObj [("id", JStr "t1"); ("name", JStr "HelloFresh")].

Definition a_recipe : dict :=
  [("name", JStr "Pasta"); ("tags", JArr [a_tag]); ("slug", JStr "pasta")].

Definition a_catalog : Mealie.t :=
  Mealie.set_tag (Mealie.init "https://food.syyrell.com" "token") a_tag.

(** The answers of a destination to two imports: each creation returns an
    identifier, each fetch and each PATCH a recipe document. *)
Definition two_imports : list http_result :=
  [good (JStr "a"); good (JObj a_recipe); good (JObj a_recipe);
   good (JStr "c"); good (JObj a_recipe); good (JObj a_recipe)].

(** Command lines and clients of the examples. *)
Definition dry_args : args :=
  {| country := "fr"; language := "fr"; mealie_tag := "HelloFresh";
     additional_deliveries := 0; debug := false; dry_run := true |}.

Definition live_args : args :=
  {| country := "fr"; language := "fr"; mealie_tag := "HelloFresh";
     additional_deliveries := 0; debug := false; dry_run := false |}.

Definition abc_client : HelloFresh.t :=
  HelloFresh.with_recipes a_client {[HStr "A"; HStr "B"; HStr "C"]}.

Definition b_catalog : Mealie.t :=
  Mealie.set_tagged_recipes a_catalog {[HStr "B"]}.

(** [str()] on the scalars: enough for the slugs of the examples. *)
Definition str_of_scalar (j : json) : string :=
  match j with
  | JStr s => s
  | JNum n => pretty n
  | JBool true => "True"
  | JBool false => "False"
  | JNull => "None"
  | _ => ""
  end.

(** ** The tag endpoints of the destination

    The destination service is not part of the program.  For the claims
    that speak of a destination state that persists between calls, its
    tag endpoints are modelled from the interface the specification
    gives: [GET /tags?search=name] lists the stored tags that match the
    name, [POST /tags {name}] stores a new tag and returns it. *)

Module Destination.

Section Tags.

(** Whether a stored tag matches a search string. *)
Variable matches : string → json → bool.

(** The tag object the service builds for a new name, given the tags
    it already stores. *)
Variable new_tag : string → list json → json.

Variable base : string.

Definition is_tag_post (rq : request) : option string :=
  if String.eqb (method rq) "post"
     && String.eqb (url rq) (base +:+ "/api/organizers/tags")
  then match body rq with
       | Some (JObj [("name", JStr n)]) => Some n
       | _ => None
       end
  else None.

(** The tags stored after a history of exchanges. *)
Definition store (initial : list json) (history : list exchange)
  : list json :=
  fold_left (λ (tags : list json) (e : exchange),
    match is_tag_post (fst e) with
    | Some n => tags ++ [new_tag n tags]
    | None => tags
    end) history initial.

Definition network (initial : list json)
  : list exchange → request → http_result :=
  λ history rq,
    let tags := store initial history in
    if String.eqb (url rq) (base +:+ "/api/organizers/tags") then
      if String.eqb (method rq) "get" then
        match params rq with
        | Some [("search", JStr s)] =>
            Response 200
              (Some (JObj [("items",
                           JArr (filter (λ t, matches s t = true) tags))]))
        | _ => Response 200 (Some (JObj [("items", JArr tags)]))
        end
      else
        match is_tag_post rq with
        | Some n => Response 201 (Some (new_tag n tags))
        | None => Response 422 None
        end
    else Response 404 None.

End Tags.

(** A service that matches a tag by the equality of its name and
    numbers the tags it creates. *)
Definition by_name (s : string) (t : json) : bool :=
  match field "name" t with
  | Some (JStr n) => String.eqb s n
  | _ => false
  end.

Definition numbered (n : string) (tags : list json) : json :=
  JObj [("id", JNum (Z.of_nat (length tags))); ("name", JStr n)].

End Destination.

(** A provider with one subscription and one page of history, in front of
    a destination that stores no tag and no recipe yet. *)
Definition fresh_destination : list exchange → request → http_result :=
  λ history rq,
    if String.eqb (url rq)
         "https://www.hellofresh.fr/gw/api/customers/me/subscriptions"
    then good (JObj [("items", JArr [JObj [("id", JNum 7)]])])
    else if String.eqb (url rq)
              "https://www.hellofresh.fr/gw/my-deliveries/past-deliveries"
    then good last_page
    else if String.eqb (url rq) "https://food.syyrell.com/api/recipes"
    then good (JObj [("total", JNum 0); ("items", JArr [])])
    else Destination.network Destination.by_name Destination.numbered
           "https://food.syyrell.com" [] history rq.

(** ** Shapes and chains *)

(** What a loop walks over the value found under a key, when there is one
    and it can be iterated. *)
Definition iterated (x : option json) : option (list json) :=
  match x with
  | Some v => match py_iter v with
              | Return l => Some l
              | _ => None
              end
  | None => None
  end.

(** The meals, weeks and pages that [add_monthly_recipes] goes through
    without raising. *)
Definition meal_ok (meal : json) : bool :=
  match field "websiteURL" meal with
  | Some u => match key_of u with Some _ => true | None => false end
  | None => false
  end.

Definition week_ok (week : json) : bool :=
  match iterated (field "meals" week) with
  | Some meals => forallb meal_ok meals
  | None => false
  end.

Definition page_ok (page : json) : bool :=
  match iterated (field "weeks" page) with
  | Some weeks => forallb week_ok weeks
  | None => false
  end.

(** The same request with the cursor [from] moved to [next_week]. *)
Definition advance (rq : request) (next_week : json) : request :=
  {| method := method rq; url := url rq; headers := headers rq;
     params := option_map (dict_set "from" next_week) (params rq);
     body := body rq |}.

(** A sequence of page fetches that starts with [rq] and in which every
    further fetch asks for the [nextWeek] the page before it named. *)
Fixpoint follows (rq : request) (es : list exchange) : Prop :=
  match es with
  | [] => True
  | (rq', r) :: es' =>
      rq' = rq
      ∧ (es' = []
         ∨ ∃ page next_week,
             accepted r = Some page
             ∧ field "nextWeek" page = Some next_week
             ∧ follows (advance rq next_week) es')
  end.

(** A provider that answers every request with the same page. *)
Definition endless (page : json) : list exchange → request → http_result :=
  λ _ _, good page.

(** The two requests [get_tagged_recipes] makes for a tag: the count
    probe asks for [perPage = 0], the fetch for the total it learnt. *)
Definition recipes_request (m : Mealie.t) (the_tag per_page : json)
  : request :=
  {| method := "get";
     url := Mealie.base_url m +:+ "/api/recipes";
     headers := Some (Mealie.headers m);
     params := Some [("tags", the_tag); ("perPage", per_page)];
     body := None |}.

(** The [orgURL] values of the recipes a listing holds. *)
Definition org_urls (listing : json) : list json :=
  omap (field "orgURL") (members (field "items" listing)).

(** The recipe-creation requests of a trace, in the order they were made. *)
Definition creations (es : list exchange) : list request :=
  map fst (List.filter (λ e : exchange, is_creation (fst e)) es).

(** The name of the credential [main] misses, when it misses one. *)
Definition missing_credential (w : world) : option string :=
  match environ w "hellofresh_token" with
  | None => Some "HELLOFRESH_TOKEN"
  | Some _ => match environ w "mealie_token" with
              | None => Some "MEALIE_TOKEN"
              | Some _ => None
              end
  end.

(** A world without the destination token. *)
Definition no_mealie_token : world :=
  {| net := scripted []; clock := a_day;
     environ := λ name, if String.eqb name "hellofresh_token"
                        then Some "token" else None;
     trace := []; log := [] |}.

(** A catalog listing with an imported recipe and a hand-written one. *)
Definition a_listing : json :=
  JObj [("total", JNum 2);
        ("items", JArr [JObj [("orgURL", JStr "u1")];
                        JObj [("orgURL", JNull)]])].




(** The URLs a dry run listed, read back from its log lines. *)
Definition reported (l : list (level * message)) : list json :=
  omap (λ e, match snd e with
             | RecipeLine u => Some u
             | _ => None
             end) l.

(** ** Visits and imports *)


(** An exchange that delivered a page [add_monthly_recipes] goes
    through. *)
Definition delivered (e : exchange) : Prop :=
  ∃ page, accepted (snd e) = Some page ∧ page_ok page = true.

(** Where a pagination with the budget [n] comes to its end: the first
    page and one page per unit of budget have been fetched, or, within
    the budget, the last page fetched names no next week. *)
Definition stops (n : Z) (visited : list exchange) : Prop :=
  Z.of_nat (length visited) = Z.max n 0 + 1
  ∨ (Z.of_nat (length visited) ≤ Z.max n 0
     ∧ ∃ e page, last visited = Some e
                 ∧ accepted (snd e) = Some page
                 ∧ field "nextWeek" page = None).

(** A fetched document to which [update_mealie_recipe] cannot append the
    tag of the client. *)
Definition untaggable (m : Mealie.t) (doc : json) : Prop :=
  match Mealie.tag m with
  | Some the_tag => with_tag_appended doc the_tag
  | None => None
  end = None.

(** The exchanges of an import of [u] that did not come to its end: the
    creation call was refused; or the recipe was created and then its
    fetch was refused or delivered a document that cannot be tagged; or
    the PATCH was refused. *)
Definition broken_import (py_str : json → string) (m : Mealie.t)
    (u : hashable) (es : list exchange) : Prop :=
  ∃ r1,
    (es = [(creation_request m (json_of_hashable u), r1)]
     ∧ accepted r1 = None)
    ∨ ∃ slug r2,
        accepted r1 = Some slug
        ∧ ((es = [(creation_request m (json_of_hashable u), r1);
                  (recipe_request py_str m slug, r2)]
            ∧ match accepted r2 with
              | Some doc => untaggable m doc
              | None => True
              end)
           ∨ ∃ doc the_tag patched r3,
               es = [(creation_request m (json_of_hashable u), r1);
                     (recipe_request py_str m slug, r2);
                     (tagging_request py_str m slug patched, r3)]
               ∧ accepted r2 = Some doc
               ∧ Mealie.tag m = Some the_tag
               ∧ with_tag_appended doc the_tag = Some patched
               ∧ accepted r3 = None).

(** The lines a dry run logs for the missing recipes it walked. *)
Definition report_lines (missing : list hashable)
  : list (level * message) :=
  match missing with
  | [] => [(INFO, AllExist)]
  | _ => (INFO, WouldHaveAdded (length missing))
         :: map (λ u, (INFO, RecipeLine (json_of_hashable u))) missing
  end.

(** A set walked from its last element to its first. *)
Definition backwards (X : gset hashable) : list hashable :=
  reverse (elements X).

(** * Properties *)

(** ** Running a sequence *)

Lemma bind_Return {A B} (m : M A) (k : A → M B) w a w1 :
  m w = (Return a, w1) → bind m k w = k a w1.
Proof. intros H. unfold bind. by rewrite H. Qed.

Lemma bind_Raise {A B} (m : M A) (k : A → M B) w e w1 :
  m w = (Raise e, w1) → bind m k w = (Raise e, w1).
Proof. intros H. unfold bind. by rewrite H. Qed.

Lemma bind_SysExit {A B} (m : M A) (k : A → M B) w c w1 :
  m w = (SysExit c, w1) → bind m k w = (SysExit c, w1).
Proof. intros H. unfold bind. by rewrite H. Qed.

Lemma bind_OutOfFuel {A B} (m : M A) (k : A → M B) w w1 :
  m w = (OutOfFuel, w1) → bind m k w = (OutOfFuel, w1).
Proof. intros H. unfold bind. by rewrite H. Qed.

(** A sequence that completes has completed its first part. *)
Lemma bind_Return_inv {A B} (m : M A) (k : A → M B) w b w' :
  bind m k w = (Return b, w') →
  ∃ a w1, m w = (Return a, w1) ∧ k a w1 = (Return b, w').
Proof.
  unfold bind. destruct (m w) as [[a|e|c|] w1]; intros H; try discriminate.
  by exists a, w1.
Qed.

Lemma lift_Return_inv {A} (r : outcome A) w a w' :
  lift r w = (Return a, w') → r = Return a ∧ w' = w.
Proof. unfold lift. intros H. by inversion H. Qed.

(** ** The HTTP client wrapper *)

Lemma accepted_iff (r : http_result) (j : json) :
  accepted r = Some j ↔ ∃ s, r = Response s (Some j) ∧ ¬ (400 ≤ s < 600).
Proof.
  unfold accepted, raise_for_status. split.
  - destruct r as [|s [j'|]]; try discriminate.
    destruct (400 <=? s) eqn:E1, (s <? 600) eqn:E2; simpl;
      intros H; try discriminate; inversion H; subst;
      exists s; split; auto; lia.
  - intros (s & -> & Hs).
    destruct (400 <=? s) eqn:E1, (s <? 600) eqn:E2; simpl; auto; lia.
Qed.

(** What [settle] makes of an answer. *)
Lemma settle_run (r : http_result) (w : world) :
  match accepted r with
  | Some j => settle r w = (Return j, w)
  | None => ∃ msg, settle r w = (logging ERROR msg ;; sys_exit 1) w
  end.
Proof.
  unfold accepted, settle.
  destruct r as [|s [j|]]; [by eexists | |];
    destruct (raise_for_status s); eauto.
Qed.

Lemma json_request_run url m hd ps data w :
  supported m = true →
  json_request url m hd ps data w
  = (r <- http (wire url m hd ps data) ;; settle r) w.
Proof.
  unfold supported, json_request, wire. intros H.
  destruct (String.eqb m "get") eqn:E1.
  { apply String.eqb_eq in E1. by subst. }
  destruct (String.eqb m "post") eqn:E2.
  { apply String.eqb_eq in E2. by subst. }
  destruct (String.eqb m "patch") eqn:E3.
  { apply String.eqb_eq in E3. by subst. }
  discriminate.
Qed.

(** A supported call that is answered acceptably returns the document and
    records the exchange, and nothing else. *)
Lemma json_request_accepted url m hd ps data w j :
  supported m = true →
  accepted (net w (trace w) (wire url m hd ps data)) = Some j →
  json_request url m hd ps data w
  = (Return j, exchanged w (wire url m hd ps data)).
Proof.
  intros Hm Hacc. rewrite json_request_run by done.
  unfold bind, http. fold (exchanged w (wire url m hd ps data)).
  pose proof (settle_run (net w (trace w) (wire url m hd ps data))
                (exchanged w (wire url m hd ps data))) as H.
  by rewrite Hacc in H.
Qed.

(** Any other answer is fatal: one error is logged and the process exits
    with code 1. *)
Lemma json_request_rejected url m hd ps data w :
  supported m = true →
  accepted (net w (trace w) (wire url m hd ps data)) = None →
  ∃ msg, json_request url m hd ps data w
         = (SysExit 1, logged (exchanged w (wire url m hd ps data)) ERROR msg).
Proof.
  intros Hm Hacc. rewrite json_request_run by done.
  unfold bind at 1, http. fold (exchanged w (wire url m hd ps data)).
  pose proof (settle_run (net w (trace w) (wire url m hd ps data))
                (exchanged w (wire url m hd ps data))) as H.
  rewrite Hacc in H. destruct H as [msg H]. exists msg. by rewrite H.
Qed.

Lemma json_request_unsupported url m hd ps data w :
  supported m = false →
  json_request url m hd ps data w
  = (SysExit 1, logged w ERROR (UnsupportedVerb m)).
Proof.
  unfold supported, json_request. intros H.
  destruct (String.eqb m "get"); [discriminate|].
  destruct (String.eqb m "post"); [discriminate|].
  destruct (String.eqb m "patch"); [discriminate|]. done.
Qed.

(** A call that returns was a supported call with an accepted answer. *)
Lemma json_request_Return_inv url m hd ps data w j w' :
  json_request url m hd ps data w = (Return j, w') →
  supported m = true
  ∧ accepted (net w (trace w) (wire url m hd ps data)) = Some j
  ∧ w' = exchanged w (wire url m hd ps data).
Proof.
  intros H. destruct (supported m) eqn:Hm.
  - destruct (accepted (net w (trace w) (wire url m hd ps data)))
      as [j'|] eqn:Hacc.
    + rewrite (json_request_accepted _ _ _ _ _ _ j') in H by done.
      by inversion H.
    + destruct (json_request_rejected url m hd ps data w) as [msg Hr];
        [done..|]. rewrite Hr in H. discriminate.
  - rewrite json_request_unsupported in H by done. discriminate.
Qed.

(** C7 (as amended): [json_request] is fail-fast.  A call with a method
    other than get, post and patch sends nothing, logs one error and exits
    with code 1.  A supported call makes exactly one HTTP exchange, with no
    retry; it returns the decoded document when a response arrived whose
    status is not a 4xx or 5xx code and whose payload decodes as JSON, and
    otherwise (no response, a 4xx or 5xx status, an undecodable payload)
    logs one error and exits with code 1. *)
Theorem json_request_fail_fast url m hd ps data w :
  let rq := wire url m hd ps data in
  let answer := net w (trace w) rq in
  let out := json_request url m hd ps data w in
  (∀ j, accepted answer = Some j
        ↔ ∃ s, answer = Response s (Some j) ∧ ¬ (400 ≤ s < 600))
  ∧ trace (snd out) = trace w ++ (if supported m then [(rq, answer)] else [])
  ∧ match (if supported m then accepted answer else None) with
    | Some j => fst out = Return j ∧ log (snd out) = log w
    | None => fst out = SysExit 1
              ∧ ∃ msg, log (snd out) = log w ++ [(ERROR, msg)]
    end.
Proof.
  intros rq answer out. split; [intros j; apply accepted_iff|].
  subst out. destruct (supported m) eqn:Hm.
  - destruct (accepted answer) as [j|] eqn:Hacc.
    + subst answer rq. by rewrite (json_request_accepted _ _ _ _ _ _ j).
    + destruct (json_request_rejected url m hd ps data w) as [msg Hr];
        [done..|]. rewrite Hr. simpl. repeat split; eauto.
  - rewrite json_request_unsupported by done. simpl.
    rewrite app_nil_r. repeat split; eauto.
Qed.

(** C7 (as stated) fails: a response with the non-2xx status 300 and a
    JSON payload is not fatal, the call returns its document. *)
Lemma json_request_returns_on_status_300 :
  ¬ (200 ≤ 300 < 300)
  ∧ json_request "https://food.syyrell.com/api/recipes" "get" None None None
      (start (scripted [Response 300 (Some (JObj []))]) a_day)
    = (Return (JObj []),
       exchanged (start (scripted [Response 300 (Some (JObj []))]) a_day)
         (wire "https://food.syyrell.com/api/recipes" "get" None None None)).
Proof. split; [lia | reflexivity]. Qed.

(** ** Dictionaries *)

Lemma dict_get_set_eq k v d : dict_get k (dict_set k v d) = Some v.
Proof.
  induction d as [|[k' v'] d IH]; simpl.
  - by rewrite String.eqb_refl.
  - destruct (String.eqb k k') eqn:E; simpl; rewrite E; auto.
Qed.

Lemma dict_get_set_ne k k' v d :
  k ≠ k' → dict_get k' (dict_set k v d) = dict_get k' d.
Proof.
  intros Hne. induction d as [|[k0 v0] d IH]; simpl.
  - destruct (String.eqb k' k) eqn:E; [|done].
    apply String.eqb_eq in E. congruence.
  - destruct (String.eqb k k0) eqn:E; simpl.
    + apply String.eqb_eq in E. subst k0.
      destruct (String.eqb k' k) eqn:E'; [|done].
      apply String.eqb_eq in E'. congruence.
    + by rewrite IH.
Qed.

(** Assigning to an existing key keeps every key where it is. *)
Lemma dict_set_keys k v d :
  is_Some (dict_get k d) → map fst (dict_set k v d) = map fst d.
Proof.
  induction d as [|[k0 v0] d IH]; simpl.
  - intros [? ?]. discriminate.
  - destruct (String.eqb k k0) eqn:E; simpl; [done|].
    intros H. by rewrite IH.
Qed.

(** ** Resolving the subscription *)

(** The responses in which [customer_res["items"][0]["id"]] has a value. *)
Lemma first_item_id_shape (j id : json) :
  HelloFresh.first_item_id j = Return id
  ↔ ∃ d first rest,
      j = JObj d
      ∧ dict_get "items" d = Some (JArr (JObj first :: rest))
      ∧ dict_get "id" first = Some id.
Proof.
  unfold HelloFresh.first_item_id. split.
  - destruct j as [| | | | |d]; simpl; try discriminate.
    destruct (dict_get "items" d) as [items|] eqn:Hi; simpl;
      [|discriminate].
    destruct items as [| | |s|l|d']; simpl; try discriminate.
    + destruct (String.get 0 s); simpl; discriminate.
    + destruct l as [|first rest]; simpl; [discriminate|].
      destruct first as [| | | | |f]; simpl; try discriminate.
      destruct (dict_get "id" f) as [v|] eqn:Hid; [|discriminate].
      intros H. inversion H; subst. by exists d, f, rest.
  - intros (d & first & rest & -> & Hi & Hid). simpl.
    rewrite Hi. simpl. by rewrite Hid.
Qed.

(** Any other response raises one of the three lookup exceptions. *)
Lemma first_item_id_failure (j : json) :
  (∃ id, HelloFresh.first_item_id j = Return id)
  ∨ ∃ e, HelloFresh.first_item_id j = Raise e
         ∧ e ∈ [KeyError; IndexError; TypeError].
Proof.
  unfold HelloFresh.first_item_id.
  destruct j as [| | | | |d]; simpl;
    try (right; eexists; split; [reflexivity|set_solver]).
  destruct (dict_get "items" d) as [items|]; simpl;
    [|right; eexists; split; [reflexivity|set_solver]].
  destruct items as [| | |s|l|d']; simpl;
    try (right; eexists; split; [reflexivity|set_solver]).
  - destruct (String.get 0 s); simpl;
      right; eexists; (split; [reflexivity|set_solver]).
  - destruct l as [|first rest]; simpl;
      [right; eexists; split; [reflexivity|set_solver]|].
    destruct first as [| | | | |f]; simpl;
      try (right; eexists; split; [reflexivity|set_solver]).
    destruct (dict_get "id" f) as [v|]; [left; eauto|].
    right; eexists; split; [reflexivity|set_solver].
Qed.

(** C8 (as amended): when the subscription list arrives, [set_customer_id]
    takes the identifier of its first entry and stores it under
    [subscription] in the query parameters of the later calls.  A response
    of any other shape (no [items], an empty list, a first entry without
    [id], ...) makes the function itself raise KeyError, IndexError or
    TypeError after the exchange: the exception is not caught, nothing is
    logged and [exit(1)] of the HTTP wrapper is not reached. *)
Theorem set_customer_id_shape (self : HelloFresh.t) (w : world) (j : json) :
  let rq := wire (HelloFresh.base_url self
                  +:+ "/api/customers/me/subscriptions") "get"
              (Some (HelloFresh.headers self))
              (Some (HelloFresh.params self)) None in
  accepted (net w (trace w) rq) = Some j →
  (∀ id, HelloFresh.first_item_id j = Return id
         ↔ ∃ d first rest,
             j = JObj d
             ∧ dict_get "items" d = Some (JArr (JObj first :: rest))
             ∧ dict_get "id" first = Some id)
  ∧ match HelloFresh.first_item_id j with
    | Return id =>
        HelloFresh.set_customer_id self w
        = (Return (HelloFresh.set_param self "subscription" id),
           logged (exchanged w rq) DEBUG (AddingCustomerId id))
        ∧ dict_get "subscription"
            (HelloFresh.params (HelloFresh.set_param self "subscription" id))
          = Some id
    | _ =>
        ∃ e, e ∈ [KeyError; IndexError; TypeError]
             ∧ HelloFresh.set_customer_id self w = (Raise e, exchanged w rq)
             ∧ log (exchanged w rq) = log w
    end.
Proof.
  intros rq Hacc. split; [intros id; apply first_item_id_shape|].
  unfold HelloFresh.set_customer_id.
  rewrite (bind_Return _ _ _ j (exchanged w rq))
    by (by apply json_request_accepted).
  destruct (first_item_id_failure j) as [[id Hid]|(e & He & Hin)].
  - rewrite Hid. split; [reflexivity|apply dict_get_set_eq].
  - rewrite He. exists e. by repeat split.
Qed.

Lemma set_customer_id_shape_witness :
  HelloFresh.set_customer_id a_client
    (start (scripted [good (JObj [("items", JArr [JObj [("id", JNum 7)]])])])
       a_day)
  = (Return (HelloFresh.set_param a_client "subscription" (JNum 7)),
     logged
       (exchanged
          (start (scripted
                    [good (JObj [("items", JArr [JObj [("id", JNum 7)]])])])
             a_day)
          (wire "https://www.hellofresh.fr/gw/api/customers/me/subscriptions"
             "get" (Some (HelloFresh.headers a_client))
             (Some (HelloFresh.params a_client)) None))
       DEBUG (AddingCustomerId (JNum 7))).
Proof.
  exact (proj1 (proj2 (set_customer_id_shape a_client
    (start (scripted [good (JObj [("items", JArr [JObj [("id", JNum 7)]])])])
       a_day)
    (JObj [("items", JArr [JObj [("id", JNum 7)]])]) eq_refl))).
Defined.

(** C8 (as stated) fails: an empty subscription list does not end in the
    wrapper's error path.  The function raises IndexError, no error is
    logged and the outcome is not the wrapper's [exit(1)]. *)
Lemma set_customer_id_empty_items_raises :
  let out := HelloFresh.set_customer_id a_client
               (start (scripted [good (JObj [("items", JArr [])])]) a_day) in
  fst out = Raise IndexError
  ∧ fst out ≠ SysExit 1
  ∧ errors (log (snd out)) = [].
Proof. by vm_compute. Qed.

(** ** The starting cursor *)


(** C4: on Monday 2024-12-30, which ISO 8601 places in week 1 of 2025,
    [set_current_week] sets the cursor to 2024-W01: the week is the ISO
    week but the year is the calendar year, not the ISO year. *)
Theorem set_current_week_at_year_boundary :
  datetime.isocalendar a_day = (2025, 1, 1)
  ∧ ∃ self',
      fst (HelloFresh.set_current_week a_client
             (start (scripted []) a_day)) = Return self'
      ∧ dict_get "from" (HelloFresh.params self') = Some (JStr "2024-W01").
Proof. split; [by vm_compute|]. eexists. split; by vm_compute. Qed.

(** ** Frames *)

Lemma grows_refl P w : grows P 0 w w.
Proof.
  repeat split. exists []. rewrite app_nil_r. repeat split; auto.
Qed.

Lemma grows_trans P b1 b2 w w1 w2 :
  grows P b1 w w1 → grows P b2 w1 w2 → grows P (b1 + b2) w w2.
Proof.
  intros (Hn & Hc & He & new1 & Ht1 & Hf1 & Hl1)
         (Hn' & Hc' & He' & new2 & Ht2 & Hf2 & Hl2).
  repeat split; try congruence.
  exists (new1 ++ new2). rewrite Ht2, Ht1, app_assoc.
  repeat split; [by apply Forall_app|]. rewrite length_app. lia.
Qed.

Lemma grows_weaken (P Q : request → Prop) b b' w w' :
  (∀ rq, P rq → Q rq) → (b ≤ b')%nat → grows P b w w' → grows Q b' w w'.
Proof.
  intros HPQ Hb (Hn & Hc & He & new & Ht & Hf & Hl).
  repeat split; auto. exists new. repeat split; auto; [|lia].
  eapply Forall_impl; [exact Hf|]. intros e. apply HPQ.
Qed.

Lemma grows_logged P w l msg : grows P 0 w (logged w l msg).
Proof.
  repeat split. exists []. simpl. rewrite app_nil_r. repeat split; auto.
Qed.

Lemma grows_exchanged (P : request → Prop) w rq :
  P rq → grows P 1 w (exchanged w rq).
Proof.
  intros HP. repeat split. eexists. simpl. repeat split; auto.
Qed.

Lemma bounded_ret {A} P (a : A) : bounded P 0 (ret a).
Proof. intros w. apply grows_refl. Qed.

Lemma bounded_lift {A} P (r : outcome A) : bounded P 0 (lift r).
Proof. intros w. apply grows_refl. Qed.

Lemma bounded_logging P l msg : bounded P 0 (logging l msg).
Proof. intros w. apply grows_logged. Qed.

Lemma bounded_bind {A B} P b1 b2 (m : M A) (k : A → M B) :
  bounded P b1 m → (∀ a, bounded P b2 (k a)) → bounded P (b1 + b2) (bind m k).
Proof.
  intros Hm Hk w. specialize (Hm w). unfold bind.
  destruct (m w) as [[a|e|c|] w1]; simpl in *;
    try (eapply grows_weaken; [| |exact Hm]; [auto|lia]).
  eapply grows_trans; [exact Hm|apply Hk].
Qed.

Lemma bounded_weaken {A} (P Q : request → Prop) b b' (m : M A) :
  (∀ rq, P rq → Q rq) → (b ≤ b')%nat → bounded P b m → bounded Q b' m.
Proof. intros HPQ Hb Hm w. eapply grows_weaken; eauto. Qed.

Lemma bounded_for_each {A St} P (l : list A) (body : St → A → M St) st :
  (∀ st x, bounded P 0 (body st x)) → bounded P 0 (for_each l body st).
Proof.
  intros Hb. revert st. induction l as [|x l IH]; intros st; simpl.
  - apply bounded_ret.
  - change 0%nat with (0 + 0)%nat. apply bounded_bind; auto.
Qed.

Lemma total_ret {A} (a : A) : total (ret a).
Proof. by intros w. Qed.

Lemma total_lift {A} (r : outcome A) : r ≠ OutOfFuel → total (lift r).
Proof. by intros H w. Qed.

Lemma total_logging l msg : total (logging l msg).
Proof. by intros w. Qed.

Lemma total_bind {A B} (m : M A) (k : A → M B) :
  total m → (∀ a, total (k a)) → total (bind m k).
Proof.
  intros Hm Hk w. specialize (Hm w). unfold bind.
  destruct (m w) as [[a|e|c|] w1]; simpl in *; try done. apply Hk.
Qed.

Lemma total_for_each {A St} (l : list A) (body : St → A → M St) st :
  (∀ st x, total (body st x)) → total (for_each l body st).
Proof.
  intros Hb. revert st. induction l as [|x l IH]; intros st; simpl.
  - apply total_ret.
  - apply total_bind; auto.
Qed.

Lemma getitem_str_total x k : getitem_str x k ≠ OutOfFuel.
Proof.
  destruct x as [| | | | |d]; simpl; try done. by destruct (dict_get k d).
Qed.

Lemma py_iter_total x : py_iter x ≠ OutOfFuel.
Proof. by destruct x. Qed.

Lemma py_hash_total x : py_hash x ≠ OutOfFuel.
Proof. by destruct x. Qed.

(** [json_request] makes at most one exchange, the one of its own
    request, and always comes to an end. *)
Lemma json_request_bounded url m hd ps data :
  bounded (λ rq, rq = wire url m hd ps data) 1
    (json_request url m hd ps data).
Proof.
  intros w. destruct (supported m) eqn:Hm.
  - destruct (accepted (net w (trace w) (wire url m hd ps data)))
      as [j|] eqn:Hacc.
    + rewrite (json_request_accepted _ _ _ _ _ _ j) by done.
      by apply grows_exchanged.
    + destruct (json_request_rejected url m hd ps data w) as [msg Hr];
        [done..|]. rewrite Hr. simpl.
      change 1%nat with (1 + 0)%nat. eapply grows_trans.
      * by apply grows_exchanged.
      * apply grows_logged.
  - rewrite json_request_unsupported by done. simpl.
    eapply grows_weaken; [| |apply grows_logged]; [done|lia].
Qed.

Lemma json_request_total url m hd ps data :
  total (json_request url m hd ps data).
Proof.
  intros w. destruct (supported m) eqn:Hm.
  - destruct (accepted (net w (trace w) (wire url m hd ps data)))
      as [j|] eqn:Hacc.
    + by rewrite (json_request_accepted _ _ _ _ _ _ j).
    + destruct (json_request_rejected url m hd ps data w) as [msg Hr];
        [done..|]. by rewrite Hr.
  - by rewrite json_request_unsupported.
Qed.

(** ** Collecting the recipes of a page *)

Lemma getitem_str_Return x k v :
  getitem_str x k = Return v ↔ field k x = Some v.
Proof.
  destruct x as [| | | | |d]; simpl; try (split; discriminate).
  destruct (dict_get k d); split; intros H; inversion H; auto.
Qed.

Lemma py_hash_Return u h : py_hash u = Return h ↔ key_of u = Some h.
Proof.
  unfold key_of.
  destruct (py_hash u); split; intros H; inversion H; auto.
Qed.

Lemma with_recipes_id (self : HelloFresh.t) :
  HelloFresh.with_recipes self (HelloFresh.recipes self) = self.
Proof. by destruct self. Qed.

Lemma for_each_cons_Return_inv {A St} (x : A) l (body : St → A → M St)
    st w st' w' :
  for_each (x :: l) body st w = (Return st', w') →
  ∃ st1 w1, body st x w = (Return st1, w1)
            ∧ for_each l body st1 w1 = (Return st', w').
Proof. simpl. apply bind_Return_inv. Qed.

Lemma add_meal_Return self meal w self' w' :
  HelloFresh.add_meal self meal w = (Return self', w') →
  ∃ u h, field "websiteURL" meal = Some u ∧ key_of u = Some h
         ∧ self' = HelloFresh.with_recipes self
                     ({[h]} ∪ HelloFresh.recipes self).
Proof.
  unfold HelloFresh.add_meal. intros H.
  apply bind_Return_inv in H as (shown & w1 & H1 & H).
  apply lift_Return_inv in H1 as [H1 ->].
  apply bind_Return_inv in H as (? & w2 & _ & H).
  apply bind_Return_inv in H as (u & w3 & H3 & H).
  apply lift_Return_inv in H3 as [H3 ->].
  apply bind_Return_inv in H as (h & w4 & H4 & H).
  apply lift_Return_inv in H4 as [H4 ->].
  inversion H; subst. exists u, h.
  by rewrite <- getitem_str_Return, <- py_hash_Return.
Qed.

(** A string is neither a meal nor a week: looking a key up in it fails. *)
Lemma add_meal_of_string self s w self' w' :
  HelloFresh.add_meal self (JStr s) w ≠ (Return self', w').
Proof. intros H. by apply add_meal_Return in H as (u & h & Hf & _). Qed.

Lemma meals_loop_Return meals self w self' w' :
  for_each meals HelloFresh.add_meal self w = (Return self', w') →
  self' = HelloFresh.with_recipes self
            (HelloFresh.recipes self
             ∪ list_to_set (omap key_of (meal_urls meals))).
Proof.
  revert self w. induction meals as [|meal meals IH]; intros self w H.
  - inversion H; subst. simpl.
    by rewrite (right_id_L ∅ (∪)), with_recipes_id.
  - apply for_each_cons_Return_inv in H as (self1 & w1 & H1 & H).
    apply add_meal_Return in H1 as (u & h & Hu & Hh & ->).
    apply IH in H. rewrite H. unfold meal_urls. simpl. rewrite Hu. simpl.
    rewrite Hh. simpl. unfold HelloFresh.with_recipes. simpl. f_equal.
    set_solver.
Qed.

(** What a [for] loop walks when it completes on a value whose members
    must be dicts: the members of a list, or nothing at all. *)
Lemma iterated_members {St} (x : json) (l : list json)
    (body : St → json → M St) st w st' w' :
  py_iter x = Return l →
  (∀ st s w st' w', body st (JStr s) w ≠ (Return st', w')) →
  for_each l body st w = (Return st', w') →
  l = members (Some x).
Proof.
  intros Hit Hstr H. destruct x as [| | |s|items|d]; simpl in *;
    try discriminate; inversion Hit; subst; auto.
  - destruct s as [|c s]; simpl in *; [done|].
    apply for_each_cons_Return_inv in H as (? & ? & H1 & _).
    by apply Hstr in H1.
  - destruct d as [|[k v] d]; simpl in *; [done|].
    apply for_each_cons_Return_inv in H as (? & ? & H1 & _).
    by apply Hstr in H1.
Qed.

Lemma add_weekly_delivery_Return self week w self' w' :
  HelloFresh.add_weekly_delivery self week w = (Return self', w') →
  self' = HelloFresh.with_recipes self
            (HelloFresh.recipes self
             ∪ list_to_set (omap key_of (week_urls week))).
Proof.
  unfold HelloFresh.add_weekly_delivery. intros H.
  apply bind_Return_inv in H as (meals & w1 & H1 & H).
  apply lift_Return_inv in H1 as [H1 ->].
  apply bind_Return_inv in H as (l & w2 & H2 & H).
  apply lift_Return_inv in H2 as [H2 ->].
  pose proof (iterated_members _ _ _ _ _ _ _ H2 add_meal_of_string H) as ->.
  apply meals_loop_Return in H. apply getitem_str_Return in H1.
  unfold week_urls. by rewrite H1.
Qed.

Lemma add_weekly_delivery_of_string self s w self' w' :
  HelloFresh.add_weekly_delivery self (JStr s) w ≠ (Return self', w').
Proof.
  unfold HelloFresh.add_weekly_delivery. intros H.
  apply bind_Return_inv in H as (meals & w1 & H1 & H).
  by apply lift_Return_inv in H1 as [H1 ->].
Qed.

Lemma weeks_loop_Return weeks self w self' w' :
  for_each weeks HelloFresh.add_weekly_delivery self w = (Return self', w') →
  self' = HelloFresh.with_recipes self
            (HelloFresh.recipes self
             ∪ list_to_set (omap key_of (flat_map week_urls weeks))).
Proof.
  revert self w. induction weeks as [|week weeks IH]; intros self w H.
  - inversion H; subst. simpl.
    by rewrite (right_id_L ∅ (∪)), with_recipes_id.
  - apply for_each_cons_Return_inv in H as (self1 & w1 & H1 & H).
    apply add_weekly_delivery_Return in H1 as ->.
    apply IH in H. rewrite H. simpl. rewrite omap_app, list_to_set_app_L.
    unfold HelloFresh.with_recipes. simpl. f_equal. set_solver.
Qed.

Lemma website_urls_weeks page :
  website_urls page = flat_map week_urls (members (field "weeks" page)).
Proof. reflexivity. Qed.

(** A page that [add_monthly_recipes] goes through adds its recipe
    references to the collection, and changes nothing else of the client. *)
Lemma add_monthly_recipes_Return self page w self' w' :
  HelloFresh.add_monthly_recipes self page w = (Return self', w') →
  self' = HelloFresh.with_recipes self
            (HelloFresh.recipes self ∪ page_recipes page).
Proof.
  unfold HelloFresh.add_monthly_recipes. intros H.
  apply bind_Return_inv in H as (weeks & w1 & H1 & H).
  apply lift_Return_inv in H1 as [H1 ->].
  apply bind_Return_inv in H as (l & w2 & H2 & H).
  apply lift_Return_inv in H2 as [H2 ->].
  pose proof (iterated_members _ _ _ _ _ _ _ H2
                add_weekly_delivery_of_string H) as ->.
  apply weeks_loop_Return in H. apply getitem_str_Return in H1.
  unfold page_recipes. by rewrite website_urls_weeks, H1.
Qed.

Lemma add_meal_bounded P self meal : bounded P 0 (HelloFresh.add_meal self meal).
Proof.
  unfold HelloFresh.add_meal.
  repeat (first [ apply bounded_ret | apply bounded_lift
                | apply bounded_logging
                | apply (bounded_bind P 0 0); [|intros ?] ]).
Qed.

Lemma add_monthly_recipes_bounded P self page :
  bounded P 0 (HelloFresh.add_monthly_recipes self page).
Proof.
  unfold HelloFresh.add_monthly_recipes.
  apply (bounded_bind P 0 0); [apply bounded_lift|intros weeks].
  apply (bounded_bind P 0 0); [apply bounded_lift|intros l].
  apply bounded_for_each. intros st week.
  unfold HelloFresh.add_weekly_delivery.
  apply (bounded_bind P 0 0); [apply bounded_lift|intros meals].
  apply (bounded_bind P 0 0); [apply bounded_lift|intros l'].
  apply bounded_for_each. intros st' meal. apply add_meal_bounded.
Qed.

Lemma add_meal_total self meal : total (HelloFresh.add_meal self meal).
Proof.
  unfold HelloFresh.add_meal.
  apply total_bind; [apply total_lift, getitem_str_total|intros ?].
  apply total_bind; [apply total_logging|intros ?].
  apply total_bind; [apply total_lift, getitem_str_total|intros ?].
  apply total_bind; [apply total_lift, py_hash_total|intros ?].
  apply total_ret.
Qed.

Lemma add_monthly_recipes_total self page :
  total (HelloFresh.add_monthly_recipes self page).
Proof.
  unfold HelloFresh.add_monthly_recipes.
  apply total_bind; [apply total_lift, getitem_str_total|intros ?].
  apply total_bind; [apply total_lift, py_iter_total|intros ?].
  apply total_for_each. intros st week.
  unfold HelloFresh.add_weekly_delivery.
  apply total_bind; [apply total_lift, getitem_str_total|intros ?].
  apply total_bind; [apply total_lift, py_iter_total|intros ?].
  apply total_for_each. intros st' meal. apply add_meal_total.
Qed.

(** Which pages the extraction goes through. *)

Lemma add_meal_run self meal w :
  if meal_ok meal then
    ∃ self' w', HelloFresh.add_meal self meal w = (Return self', w')
  else
    ∃ e w', HelloFresh.add_meal self meal w = (Raise e, w')
            ∧ e ∈ [KeyError; TypeError].
Proof.
  unfold meal_ok, HelloFresh.add_meal, key_of, bind, lift, logging, ret.
  destruct meal as [| | | | |d]; simpl;
    try (eexists _, _; split; [reflexivity|set_solver]).
  destruct (dict_get "websiteURL" d) as [u|]; simpl;
    [|eexists _, _; split; [reflexivity|set_solver]].
  destruct u; simpl; eauto;
    eexists _, _; (split; [reflexivity|set_solver]).
Qed.

Lemma loop_run {St} (ok : json → bool) (body : St → json → M St) l :
  (∀ st x w,
     if ok x then ∃ st' w', body st x w = (Return st', w')
     else ∃ e w', body st x w = (Raise e, w') ∧ e ∈ [KeyError; TypeError]) →
  ∀ st w,
    if forallb ok l then ∃ st' w', for_each l body st w = (Return st', w')
    else ∃ e w', for_each l body st w = (Raise e, w')
                 ∧ e ∈ [KeyError; TypeError].
Proof.
  intros Hbody. induction l as [|x l IH]; intros st w; simpl.
  - by eexists _, _.
  - specialize (Hbody st x w). destruct (ok x); simpl.
    + destruct Hbody as (st1 & w1 & H1).
      rewrite (bind_Return _ _ _ _ _ H1). apply IH.
    + destruct Hbody as (e & w1 & H1 & He).
      rewrite (bind_Raise _ _ _ _ _ H1). eauto.
Qed.

(** Looking up a key and walking the value found, as both loops of
    [add_monthly_recipes] start: a list of values to walk, or KeyError or
    TypeError. *)
Lemma lookup_and_iterate (x : json) (k : string) :
  match iterated (field k x) with
  | Some l => ∃ v, getitem_str x k = Return v ∧ py_iter v = Return l
  | None => (∃ e, getitem_str x k = Raise e ∧ e ∈ [KeyError; TypeError])
            ∨ ∃ v, getitem_str x k = Return v ∧ py_iter v = Raise TypeError
  end.
Proof.
  unfold iterated, field.
  destruct x as [| | | | |d]; simpl;
    try (left; eexists; split; [reflexivity|set_solver]).
  destruct (dict_get k d) as [v|]; simpl;
    [|left; eexists; split; [reflexivity|set_solver]].
  destruct v; simpl; eauto.
Qed.

Lemma add_weekly_delivery_run self week w :
  if week_ok week then
    ∃ self' w', HelloFresh.add_weekly_delivery self week w = (Return self', w')
  else
    ∃ e w', HelloFresh.add_weekly_delivery self week w = (Raise e, w')
            ∧ e ∈ [KeyError; TypeError].
Proof.
  unfold week_ok.
  pose proof (lookup_and_iterate week "meals") as H.
  destruct (iterated (field "meals" week)) as [meals|].
  - destruct H as (v & Hv & Hit).
    assert (Heq : HelloFresh.add_weekly_delivery self week w
                  = for_each meals HelloFresh.add_meal self w).
    { unfold HelloFresh.add_weekly_delivery.
      rewrite (bind_Return _ _ _ v w) by (unfold lift; by rewrite Hv).
      by rewrite (bind_Return _ _ _ meals w) by (unfold lift; by rewrite Hit). }
    rewrite Heq. apply (loop_run meal_ok HelloFresh.add_meal meals).
    intros st x w0. apply add_meal_run.
  - destruct H as [(e & He & Hin)|(v & Hv & Hit)].
    + exists e, w. split; [|done]. unfold HelloFresh.add_weekly_delivery.
      by rewrite (bind_Raise _ _ _ e w) by (unfold lift; by rewrite He).
    + exists TypeError, w. split; [|set_solver]. unfold HelloFresh.add_weekly_delivery.
      rewrite (bind_Return _ _ _ v w) by (unfold lift; by rewrite Hv).
      by rewrite (bind_Raise _ _ _ TypeError w)
        by (unfold lift; by rewrite Hit).
Qed.

Lemma add_monthly_recipes_run self page w :
  if page_ok page then
    ∃ self' w', HelloFresh.add_monthly_recipes self page w = (Return self', w')
  else
    ∃ e w', HelloFresh.add_monthly_recipes self page w = (Raise e, w')
            ∧ e ∈ [KeyError; TypeError].
Proof.
  unfold page_ok.
  pose proof (lookup_and_iterate page "weeks") as H.
  destruct (iterated (field "weeks" page)) as [weeks|].
  - destruct H as (v & Hv & Hit).
    assert (Heq : HelloFresh.add_monthly_recipes self page w
                  = for_each weeks HelloFresh.add_weekly_delivery self w).
    { unfold HelloFresh.add_monthly_recipes.
      rewrite (bind_Return _ _ _ v w) by (unfold lift; by rewrite Hv).
      by rewrite (bind_Return _ _ _ weeks w) by (unfold lift; by rewrite Hit). }
    rewrite Heq. apply (loop_run week_ok HelloFresh.add_weekly_delivery weeks).
    intros st x w0. apply add_weekly_delivery_run.
  - destruct H as [(e & He & Hin)|(v & Hv & Hit)].
    + exists e, w. split; [|done]. unfold HelloFresh.add_monthly_recipes.
      by rewrite (bind_Raise _ _ _ e w) by (unfold lift; by rewrite He).
    + exists TypeError, w. split; [|set_solver]. unfold HelloFresh.add_monthly_recipes.
      rewrite (bind_Return _ _ _ v w) by (unfold lift; by rewrite Hv).
      by rewrite (bind_Raise _ _ _ TypeError w)
        by (unfold lift; by rewrite Hit).
Qed.

(** ** The pagination loop *)

(** One round of the [while True] loop. *)
Lemma past_deliveries_loop_eq fuel self n :
  HelloFresh.past_deliveries_loop fuel self n
  = (most_recent_deliveries <- json_request
       (HelloFresh.base_url self +:+ "/my-deliveries/past-deliveries") "get"
       (Some (HelloFresh.headers self)) (Some (HelloFresh.params self)) None ;;
     self <- HelloFresh.add_monthly_recipes self most_recent_deliveries ;;
     if 0 <? n then
       logging DEBUG GettingMore ;;
       match getitem_str most_recent_deliveries "nextWeek" with
       | Return next_week =>
           match fuel with
           | O => lift OutOfFuel
           | S fuel' =>
               HelloFresh.past_deliveries_loop fuel'
                 (HelloFresh.set_param self "from" next_week) (n - 1)
           end
       | Raise KeyError =>
           logging ERROR (NoMoreDeliveries n) ;; ret self
       | Raise e => raise e
       | SysExit c => sys_exit c
       | OutOfFuel => lift OutOfFuel
       end
     else ret self).
Proof. by destruct fuel. Qed.

(** What one round does, case by case: the page is fetched and its
    recipes extracted; then the loop either goes round again with the
    page's cursor, or stops. *)
Lemma past_deliveries_loop_round fuel self n w :
  let rq := deliveries_request self in
  let w1 := exchanged w rq in
  match accepted (net w (trace w) rq) with
  | None =>
      ∃ msg, HelloFresh.past_deliveries_loop fuel self n w
             = (SysExit 1, logged w1 ERROR msg)
  | Some page =>
      match HelloFresh.add_monthly_recipes self page w1 with
      | (Return self1, w2) =>
          if 0 <? n then
            match field "nextWeek" page with
            | Some next_week =>
                match fuel with
                | O => HelloFresh.past_deliveries_loop fuel self n w
                       = (OutOfFuel, logged w2 DEBUG GettingMore)
                | S fuel' =>
                    HelloFresh.past_deliveries_loop fuel self n w
                    = HelloFresh.past_deliveries_loop fuel'
                        (HelloFresh.set_param self1 "from" next_week) (n - 1)
                        (logged w2 DEBUG GettingMore)
                end
            | None =>
                HelloFresh.past_deliveries_loop fuel self n w
                = (Return self1,
                   logged (logged w2 DEBUG GettingMore) ERROR
                     (NoMoreDeliveries n))
            end
          else HelloFresh.past_deliveries_loop fuel self n w
               = (Return self1, w2)
      | (Raise e, w2) =>
          HelloFresh.past_deliveries_loop fuel self n w = (Raise e, w2)
      | (SysExit c, w2) =>
          HelloFresh.past_deliveries_loop fuel self n w = (SysExit c, w2)
      | (OutOfFuel, w2) =>
          HelloFresh.past_deliveries_loop fuel self n w = (OutOfFuel, w2)
      end
  end.
Proof.
  intros rq w1. rewrite past_deliveries_loop_eq.
  destruct (accepted (net w (trace w) rq)) as [page|] eqn:Hacc.
  - rewrite (bind_Return _ _ _ page w1)
      by (by apply json_request_accepted).
    destruct (HelloFresh.add_monthly_recipes self page w1)
      as [[self1|e|c|] w2] eqn:E2.
    + rewrite (bind_Return _ _ _ self1 w2) by done.
      destruct (0 <? n); [|done].
      assert (Hobj : ∃ d, page = JObj d).
      { unfold HelloFresh.add_monthly_recipes in E2.
        apply bind_Return_inv in E2 as (weeks & w' & H1 & _).
        apply lift_Return_inv in H1 as [H1 _].
        destruct page; try discriminate. eauto. }
      destruct Hobj as [d ->]. simpl.
      destruct (dict_get "nextWeek" d) as [next|]; [|done].
      by destruct fuel.
    + by rewrite (bind_Raise _ _ _ e w2).
    + by rewrite (bind_SysExit _ _ _ c w2).
    + by rewrite (bind_OutOfFuel _ _ _ w2).
  - destruct (json_request_rejected
                (HelloFresh.base_url self +:+ "/my-deliveries/past-deliveries")
                "get" (Some (HelloFresh.headers self))
                (Some (HelloFresh.params self)) None w) as [msg Hr];
      [done..|].
    exists msg. by rewrite (bind_SysExit _ _ _ 1 _ Hr).
Qed.

Lemma grows_0_trace P w w' : grows P 0 w w' → trace w' = trace w.
Proof.
  intros (_ & _ & _ & new & Ht & _ & Hl).
  destruct new; simpl in Hl; [|lia]. by rewrite app_nil_r in Ht.
Qed.

Lemma add_monthly_recipes_quiet self page w :
  grows (λ _, False) 0 w (snd (HelloFresh.add_monthly_recipes self page w)).
Proof. apply add_monthly_recipes_bounded. Qed.

Lemma accepted_pages rq r page : accepted r = Some page → pages [(rq, r)] = [page].
Proof. intros H. apply accepted_iff in H as (s & -> & _). reflexivity. Qed.

Lemma pages_app es1 es2 : pages (es1 ++ es2) = pages es1 ++ pages es2.
Proof. apply omap_app. Qed.

(** Whatever its outcome, the loop makes at most [fuel + 1] exchanges,
    each a fetch of a page of the delivery history. *)
Lemma past_deliveries_loop_grows fuel self n w :
  grows (delivery_fetch (HelloFresh.base_url self)) (S fuel) w
    (snd (HelloFresh.past_deliveries_loop fuel self n w)).
Proof.
  revert self n w. induction fuel as [|fuel IH]; intros self n w.
  all: match goal with
       | |- grows _ _ _ (snd (HelloFresh.past_deliveries_loop ?f _ _ _)) =>
           pose proof (past_deliveries_loop_round f self n w) as R
       end;
    cbv zeta in R;
    assert (Hx : grows (delivery_fetch (HelloFresh.base_url self)) 1 w
                   (exchanged w (deliveries_request self)))
      by (by apply grows_exchanged);
    pose proof (add_monthly_recipes_bounded
                  (delivery_fetch (HelloFresh.base_url self)) self) as Hq;
    destruct (accepted (net w (trace w) (deliveries_request self)))
      as [page|];
    [|destruct R as [msg ->]; simpl;
      eapply grows_weaken;
        [| |eapply (grows_trans _ 1 0); [exact Hx|apply grows_logged]];
        [done|lia]].
  all: specialize (Hq page (exchanged w (deliveries_request self)));
    pose proof (add_monthly_recipes_Return self page
                  (exchanged w (deliveries_request self))) as Hret;
    destruct (HelloFresh.add_monthly_recipes self page
                (exchanged w (deliveries_request self)))
      as [[self1|e|c|] w2]; simpl in Hq.
  all: try (rewrite R; simpl; eapply grows_weaken;
              [| |eapply (grows_trans _ 1 0); [exact Hx|exact Hq]];
              [done|lia]).
  - destruct (0 <? n).
    + destruct (field "nextWeek" page); rewrite R; simpl.
      * eapply (grows_trans _ 1 0); [exact Hx|].
        eapply (grows_trans _ 0 0); [exact Hq|apply grows_logged].
      * eapply (grows_trans _ 1 0); [exact Hx|].
        eapply (grows_trans _ 0 0); [exact Hq|].
        eapply (grows_trans _ 0 0); apply grows_logged.
    + rewrite R. simpl. eapply (grows_trans _ 1 0); [exact Hx|exact Hq].
  - destruct (0 <? n).
    + destruct (field "nextWeek" page) as [next|]; rewrite R.
      * eapply (grows_trans _ 1 (S fuel)); [exact Hx|].
        eapply (grows_trans _ 0 (S fuel)); [exact Hq|].
        eapply (grows_trans _ 0 (S fuel)); [apply grows_logged|].
        pose proof (Hret self1 w2 eq_refl) as Hs. subst self1.
        exact (IH (HelloFresh.set_param
                     (HelloFresh.with_recipes self
                        (HelloFresh.recipes self ∪ page_recipes page))
                     "from" next) (n - 1) (logged w2 DEBUG GettingMore)).
      * simpl. eapply grows_weaken with (b := 1%nat); [done|lia|].
        eapply (grows_trans _ 1 0); [exact Hx|].
        eapply (grows_trans _ 0 0); [exact Hq|].
        eapply (grows_trans _ 0 0); apply grows_logged.
    + rewrite R. simpl. eapply grows_weaken with (b := 1%nat); [done|lia|].
      eapply (grows_trans _ 1 0); [exact Hx|exact Hq].
Qed.

(** With fuel for every page of the budget the loop never runs dry. *)
Lemma past_deliveries_loop_total fuel self n w :
  (Z.to_nat n ≤ fuel)%nat →
  fst (HelloFresh.past_deliveries_loop fuel self n w) ≠ OutOfFuel.
Proof.
  revert self n w. induction fuel as [|fuel IH]; intros self n w Hfuel.
  all: match goal with
       | |- fst (HelloFresh.past_deliveries_loop ?f _ _ _) ≠ _ =>
           pose proof (past_deliveries_loop_round f self n w) as R
       end;
    cbv zeta in R;
    destruct (accepted (net w (trace w) (deliveries_request self)))
      as [page|]; [|by destruct R as [msg ->]];
    pose proof (add_monthly_recipes_total self page
                  (exchanged w (deliveries_request self))) as Ht;
    destruct (HelloFresh.add_monthly_recipes self page
                (exchanged w (deliveries_request self)))
      as [[self1|e|c|] w2]; try (by rewrite R); try done;
    destruct (0 <? n) eqn:Hn; [|by rewrite R];
    destruct (field "nextWeek" page) as [next|]; [|by rewrite R].
  - apply Z.ltb_lt in Hn. lia.
  - rewrite R. apply IH. apply Z.ltb_lt in Hn. lia.
Qed.

(** A run of the loop that completes has collected the recipes of the
    pages it fetched, and every exchange it made delivered a page. *)
Lemma past_deliveries_loop_Return fuel self n w self' w' :
  HelloFresh.past_deliveries_loop fuel self n w = (Return self', w') →
  ∃ visited,
    trace w' = trace w ++ visited
    ∧ Forall (λ e : exchange, is_Some (accepted (snd e))) visited
    ∧ HelloFresh.recipes self'
      = HelloFresh.recipes self ∪ ⋃ (page_recipes <$> pages visited).
Proof.
  revert self n w. induction fuel as [|fuel IH]; intros self n w H.
  all: match type of H with
       | HelloFresh.past_deliveries_loop ?f _ _ _ = _ =>
           pose proof (past_deliveries_loop_round f self n w) as R
       end;
    cbv zeta in R;
    destruct (accepted (net w (trace w) (deliveries_request self)))
      as [page|] eqn:Hacc;
      [|destruct R as [msg R]; rewrite R in H; discriminate];
    pose proof (add_monthly_recipes_quiet self page
                  (exchanged w (deliveries_request self))) as Hq;
    pose proof (add_monthly_recipes_Return self page
                  (exchanged w (deliveries_request self))) as Hret;
    destruct (HelloFresh.add_monthly_recipes self page
                (exchanged w (deliveries_request self)))
      as [[self1|e|c|] w2]; try (rewrite R in H; discriminate);
    simpl in Hq; apply grows_0_trace in Hq;
    pose proof (Hret self1 w2 eq_refl) as Hs; subst self1.
  all: assert (Hone :
      ∀ w3, trace w3 = trace w2 →
        (Return (HelloFresh.with_recipes self
                   (HelloFresh.recipes self ∪ page_recipes page)), w3)
        = (Return self', w') →
        ∃ visited,
          trace w' = trace w ++ visited
          ∧ Forall (λ e : exchange, is_Some (accepted (snd e))) visited
          ∧ HelloFresh.recipes self'
            = HelloFresh.recipes self ∪ ⋃ (page_recipes <$> pages visited)).
  1,3: intros w3 Ht3 Heq; inversion Heq; subst;
    exists [(deliveries_request self,
             net w (trace w) (deliveries_request self))];
    rewrite Ht3, Hq; split; [done|]; split.
  1,3: constructor; [simpl; rewrite Hacc; eauto|constructor].
  1,2: rewrite (accepted_pages _ _ page) by done; simpl;
    by rewrite (right_id_L ∅ (∪)).
  all: destruct (0 <? n); [|rewrite R in H; by apply (Hone w2)];
    destruct (field "nextWeek" page) as [next|];
      [|rewrite R in H;
        by apply (Hone (logged (logged w2 DEBUG GettingMore) ERROR
                          (NoMoreDeliveries n)))].
  - rewrite R in H. discriminate.
  - rewrite R in H. apply IH in H as (visited & Ht & Hall & Hrec).
    exists ((deliveries_request self,
             net w (trace w) (deliveries_request self)) :: visited).
    split; [|split].
    + rewrite Ht. simpl. rewrite Hq. simpl. by rewrite <- app_assoc.
    + constructor; [simpl; rewrite Hacc; eauto|done].
    + rewrite Hrec. change (?x :: visited) with ([x] ++ visited).
      rewrite pages_app, (accepted_pages _ _ page) by done. simpl.
      set_solver.
Qed.

Lemma elem_of_page_recipes (u : hashable) (ps : list json) :
  u ∈ ⋃ (page_recipes <$> ps)
  ↔ ∃ page v, page ∈ ps ∧ v ∈ website_urls page ∧ key_of v = Some u.
Proof.
  rewrite elem_of_union_list. split.
  - intros (X & HX & Hu). apply list_elem_of_fmap in HX as (page & -> & Hp).
    unfold page_recipes in Hu. rewrite elem_of_list_to_set in Hu.
    apply list_elem_of_omap in Hu as (v & Hv & Hk). eauto.
  - intros (page & v & Hp & Hv & Hk). exists (page_recipes page). split.
    + apply list_elem_of_fmap. eauto.
    + unfold page_recipes. rewrite elem_of_list_to_set.
      apply list_elem_of_omap. eauto.
Qed.

Lemma follows_single rq r : follows rq [(rq, r)].
Proof. simpl. auto. Qed.

(** Whatever its outcome, the loop starts with the request of the current
    cursor and then follows the cursors the pages name. *)
Lemma past_deliveries_loop_follows fuel self n w :
  ∃ fetched,
    trace (snd (HelloFresh.past_deliveries_loop fuel self n w))
    = trace w ++ fetched
    ∧ follows (deliveries_request self) fetched.
Proof.
  revert self n w. induction fuel as [|fuel IH]; intros self n w.
  all: match goal with
       | |- context [HelloFresh.past_deliveries_loop ?f _ _ _] =>
           pose proof (past_deliveries_loop_round f self n w) as R
       end;
    cbv zeta in R;
    destruct (accepted (net w (trace w) (deliveries_request self)))
      as [page|] eqn:Hacc;
    [|destruct R as [msg ->]; eexists; split;
      [reflexivity|apply follows_single]];
    pose proof (add_monthly_recipes_quiet self page
                  (exchanged w (deliveries_request self))) as Hq;
    pose proof (add_monthly_recipes_Return self page
                  (exchanged w (deliveries_request self))) as Hret;
    destruct (HelloFresh.add_monthly_recipes self page
                (exchanged w (deliveries_request self)))
      as [[self1|e|c|] w2];
    simpl in Hq; apply grows_0_trace in Hq;
    try (rewrite R; simpl; rewrite Hq; eexists; split;
         [reflexivity|apply follows_single]).
  - destruct (0 <? n); [destruct (field "nextWeek" page)|];
      rewrite R; simpl; rewrite Hq; eexists;
      (split; [reflexivity|apply follows_single]).
  - destruct (0 <? n);
      [destruct (field "nextWeek" page) as [next|] eqn:Hnext|];
      rewrite R;
      try (simpl; rewrite Hq; eexists;
           split; [reflexivity|apply follows_single]).
    pose proof (Hret self1 w2 eq_refl) as Hs. subst self1.
    destruct (IH (HelloFresh.set_param
                    (HelloFresh.with_recipes self
                       (HelloFresh.recipes self ∪ page_recipes page))
                    "from" next) (n - 1) (logged w2 DEBUG GettingMore))
      as (fetched & Ht & Hf).
    rewrite Ht. simpl. rewrite Hq. simpl. rewrite <- app_assoc.
    eexists. split; [reflexivity|]. simpl. split; [done|].
    right. exists page, next. by repeat split.
Qed.

Lemma delivered_intro rq r page :
  accepted r = Some page → page_ok page = true → delivered (rq, r).
Proof. intros. by exists page. Qed.

Lemma not_delivered_rejected rq r l :
  accepted r = None → ¬ Forall delivered ((rq, r) :: l).
Proof.
  intros Hacc H. inversion H as [|? ? (page & Hp & _) _]; subst.
  simpl in Hp. congruence.
Qed.

Lemma not_delivered_malformed rq r page l :
  accepted r = Some page → page_ok page = false →
  ¬ Forall delivered ((rq, r) :: l).
Proof.
  intros Hacc Hbad H. inversion H as [|? ? (page' & Hp & Hok) _]; subst.
  simpl in Hp. congruence.
Qed.

(** Every run of the loop fetches the page of the current cursor.  It
    completes exactly when every page it fetched was delivered and
    well-formed, and then it has stopped where the budget or the history
    ends and has collected the recipes of these pages. *)
Lemma past_deliveries_loop_visits fuel self n w :
  (Z.to_nat n ≤ fuel)%nat →
  let out := HelloFresh.past_deliveries_loop fuel self n w in
  let rq := deliveries_request self in
  ∃ rest,
    let visited := (rq, net w (trace w) rq) :: rest in
    trace (snd out) = trace w ++ visited
    ∧ ((∃ self', fst out = Return self'
                 ∧ stops n visited
                 ∧ HelloFresh.recipes self'
                   = HelloFresh.recipes self
                     ∪ ⋃ (page_recipes <$> pages visited))
       ∧ Forall delivered visited
       ∨ (∀ self', fst out ≠ Return self') ∧ ¬ Forall delivered visited).
Proof.
  cbv zeta.
  revert self n w. induction fuel as [|fuel IH]; intros self n w Hfuel.
  all: match goal with
       | |- context [HelloFresh.past_deliveries_loop ?f _ _ _] =>
           pose proof (past_deliveries_loop_round f self n w) as R
       end;
    cbv zeta in R;
    destruct (accepted (net w (trace w) (deliveries_request self)))
      as [page|] eqn:Hacc;
    [|destruct R as [msg ->]; exists []; split; [done|right]; split;
      [discriminate|by apply not_delivered_rejected]];
    pose proof (add_monthly_recipes_run self page
                  (exchanged w (deliveries_request self))) as Hrun;
    pose proof (add_monthly_recipes_quiet self page
                  (exchanged w (deliveries_request self))) as Hq;
    pose proof (add_monthly_recipes_Return self page
                  (exchanged w (deliveries_request self))) as Hret;
    destruct (page_ok page) eqn:Hok;
    [destruct Hrun as (self1 & w2 & Hrun)
    |destruct Hrun as (e & w2 & Hrun & He)];
    rewrite Hrun in *; simpl in Hq;
    pose proof (grows_0_trace _ _ _ Hq) as Ht2;
    destruct Hq as (Hnet2 & _); simpl in Ht2, Hnet2.
  2,4: rewrite R; exists []; split; [done|right]; split;
    [discriminate|by eapply not_delivered_malformed].
  all: pose proof (Hret self1 w2 eq_refl) as Hs; subst self1; clear Hret.
  all: assert (Hone : ∀ w3, trace w3 = trace w2 →
         ((0 <? n) = false ∨ field "nextWeek" page = None) →
         let visited := [(deliveries_request self,
                          net w (trace w) (deliveries_request self))] in
         trace w3 = trace w ++ visited
         ∧ ((∃ self',
               Return (HelloFresh.with_recipes self
                         (HelloFresh.recipes self ∪ page_recipes page))
               = Return self'
               ∧ stops n visited
               ∧ HelloFresh.recipes self'
                 = HelloFresh.recipes self
                   ∪ ⋃ (page_recipes <$> pages visited))
            ∧ Forall delivered visited
            ∨ (∀ self',
                 Return (HelloFresh.with_recipes self
                           (HelloFresh.recipes self ∪ page_recipes page))
                 ≠ Return self') ∧ ¬ Forall delivered visited)).
  1,3: intros w3 Ht3 Hstop; cbv zeta; split; [by rewrite Ht3, Ht2|left];
    split; [|constructor; [by eapply delivered_intro|constructor]];
    eexists; split; [reflexivity|]; split;
    [|rewrite (accepted_pages _ _ page) by done; simpl;
      by rewrite (right_id_L ∅ (∪))];
    unfold stops; simpl length;
    destruct Hstop as [Hn|Hnext];
    [left; apply Z.ltb_ge in Hn; lia|];
    destruct (0 <? n) eqn:Hn;
    [right; apply Z.ltb_lt in Hn; split; [lia|]; eexists _, page;
     by repeat split
    |left; apply Z.ltb_ge in Hn; lia].
  all: destruct (0 <? n) eqn:Hn;
    [|rewrite R; exists []; apply (Hone w2); auto];
    destruct (field "nextWeek" page) as [next|] eqn:Hnext;
    [|rewrite R; exists [];
      apply (Hone (logged (logged w2 DEBUG GettingMore) ERROR
                     (NoMoreDeliveries n))); auto].
  - apply Z.ltb_lt in Hn. lia.
  - apply Z.ltb_lt in Hn. rewrite R. clear Hone.
    set (self1 := HelloFresh.set_param
                    (HelloFresh.with_recipes self
                       (HelloFresh.recipes self ∪ page_recipes page))
                    "from" next).
    destruct (IH self1 (n - 1) (logged w2 DEBUG GettingMore))
      as (rest & Ht & Hcase); [lia|].
    set (out := HelloFresh.past_deliveries_loop fuel self1 (n - 1)
                  (logged w2 DEBUG GettingMore)) in *.
    set (visited := (deliveries_request self1,
                     net (logged w2 DEBUG GettingMore)
                       (trace (logged w2 DEBUG GettingMore))
                       (deliveries_request self1)) :: rest) in *.
    exists visited. split.
    { rewrite Ht. simpl. rewrite Ht2. simpl. by rewrite <- app_assoc. }
    destruct Hcase as [[(self' & Hr & Hstops & Hrec) Hall]|[Hr Hall]].
    + left. split; [|constructor; [by eapply delivered_intro|done]].
      exists self'. split; [done|]. split.
      * unfold stops in *. change (length (?x :: visited))
          with (S (length visited)).
        destruct Hstops as [Hlen|(Hlen & e & pg & Hlast & Hp & Hnx)].
        -- left. lia.
        -- right. split; [lia|]. exists e, pg. by repeat split.
      * rewrite Hrec. change (?x :: visited) with ([x] ++ visited).
        rewrite pages_app, (accepted_pages _ _ page) by done. simpl.
        set_solver.
    + right. split; [done|]. intros H. apply Hall. by inversion H.
Qed.

(** C2: [get_past_deliveries] accumulates exactly the union of the
    [websiteURL] values of all meals of all weeks of all pages it visits,
    as a set.  Every run fetches the page of the current cursor first and
    then follows the cursors the pages name.  It completes exactly when
    every page it fetched was delivered and well-formed; it has then
    stopped where the budget or the history ends, and a recipe reference
    is in the collection afterwards iff it was there before or some
    visited page holds it, the collection listing each reference once
    whatever the duplicates within or across pages. *)
Theorem get_past_deliveries_collects self n w :
  let out := HelloFresh.get_past_deliveries self n w in
  let rq := deliveries_request self in
  ∃ rest,
    let visited := (rq, net w (trace w) rq) :: rest in
    trace (snd out) = trace w ++ visited
    ∧ follows rq visited
    ∧ Forall (λ e : exchange,
                delivery_fetch (HelloFresh.base_url self) (fst e)) visited
    ∧ ((∃ self', fst out = Return self') ↔ Forall delivered visited)
    ∧ ∀ self', fst out = Return self' →
        stops n visited
        ∧ HelloFresh.recipes self'
          = HelloFresh.recipes self ∪ ⋃ (page_recipes <$> pages visited)
        ∧ (∀ u, u ∈ HelloFresh.recipes self'
                ↔ u ∈ HelloFresh.recipes self
                  ∨ ∃ page v, page ∈ pages visited ∧ v ∈ website_urls page
                              ∧ key_of v = Some u)
        ∧ NoDup (elements (HelloFresh.recipes self')).
Proof.
  cbv zeta. unfold HelloFresh.get_past_deliveries.
  change ((logging DEBUG GettingLastMonth ;;
           HelloFresh.past_deliveries_loop (Z.to_nat n) self n) w)
    with (HelloFresh.past_deliveries_loop (Z.to_nat n) self n
            (logged w DEBUG GettingLastMonth)).
  set (w0 := logged w DEBUG GettingLastMonth).
  destruct (past_deliveries_loop_visits (Z.to_nat n) self n w0 (le_n _))
    as (rest & Ht & Hcase).
  destruct (past_deliveries_loop_follows (Z.to_nat n) self n w0)
    as (fetched & Htf & Hfollows).
  destruct (past_deliveries_loop_grows (Z.to_nat n) self n w0)
    as (_ & _ & _ & new & Hnew & Hall & _).
  change (net w0) with (net w) in *. change (trace w0) with (trace w) in *.
  rewrite Ht in Htf, Hnew. apply app_inv_head in Htf, Hnew. subst fetched new.
  exists rest. split; [done|]. split; [done|]. split; [done|].
  destruct Hcase as [[(self' & Hr & Hstops & Hrec) Hd]|[Hr Hd]].
  - split; [split; eauto|].
    intros self'' Hr'. rewrite Hr in Hr'. inversion Hr'; subst self''.
    split; [done|]. split; [done|]. split; [|apply NoDup_elements].
    intros u. by rewrite Hrec, elem_of_union, elem_of_page_recipes.
  - split.
    + split; [intros [self' H]; by destruct (Hr self')|done].
    + intros self' H. by destruct (Hr self').
Qed.

Lemma get_past_deliveries_collects_witness :
  let out := HelloFresh.get_past_deliveries a_client 1 two_pages in
  fst out = Return (result_of a_client (fst out))
  ∧ pages (trace (snd out)) = [first_page; last_page]
  ∧ HelloFresh.recipes (result_of a_client (fst out))
    = ∅ ∪ ⋃ (page_recipes <$> [first_page; last_page])
  ∧ ∀ u, u ∈ HelloFresh.recipes (result_of a_client (fst out))
         ↔ u ∈ [HStr "u1"; HStr "u2"; HStr "u3"].
Proof.
  intros out.
  destruct (get_past_deliveries_collects a_client 1 two_pages)
    as (rest & Ht & _ & _ & Hiff & Hret).
  fold out in Ht, Hiff, Hret.
  assert (Hrun : fst out = Return (result_of a_client (fst out)))
    by (clear; vm_compute; reflexivity).
  assert (Hpages : pages (trace (snd out)) = [first_page; last_page])
    by (clear; vm_compute; reflexivity).
  destruct (Hret _ Hrun) as (_ & Hrec & _).
  split; [exact Hrun|]. split; [exact Hpages|].
  change (trace two_pages ++ ?v) with v in Ht.
  rewrite <- Ht, Hpages in Hrec. clear Ht Hiff Hret Hpages.
  split; [exact Hrec|].
  intros u. rewrite Hrec. clear.
  rewrite elem_of_union, elem_of_page_recipes.
  split.
  - intros [H|(page & v & Hp & Hv & Hk)]; [set_solver|].
    apply list_elem_of_In in Hp. simpl in Hp.
    destruct Hp as [<-|[<-|[]]]; apply list_elem_of_In in Hv; simpl in Hv.
    + destruct Hv as [<-|[<-|[<-|[]]]]; inversion Hk; set_solver.
    + destruct Hv as [<-|[<-|[]]]; inversion Hk; set_solver.
  - intros H. right. apply list_elem_of_In in H. simpl in H.
    destruct H as [<-|[<-|[<-|[]]]].
    + exists first_page, (JStr "u1"). split; [set_solver|]. split; [|done].
      apply list_elem_of_In. simpl. auto.
    + exists first_page, (JStr "u2"). split; [set_solver|]. split; [|done].
      apply list_elem_of_In. simpl. auto.
    + exists last_page, (JStr "u3"). split; [set_solver|]. split; [|done].
      apply list_elem_of_In. simpl. auto.
Defined.

(** Two pages with the recipes u1, u1, u2 and u2, u3: two fetches, three
    recipe references. *)
Example two_pages_collected :
  let out := HelloFresh.get_past_deliveries a_client 1 two_pages in
  pages (trace (snd out)) = [first_page; last_page]
  ∧ HelloFresh.recipes (result_of a_client (fst out))
    = {[HStr "u1"; HStr "u2"; HStr "u3"]}.
Proof.
  intros out. split; [vm_compute; reflexivity|].
  apply (bool_decide_unpack _). vm_compute. exact I.
Qed.

(** C3 (as amended): for every budget, [get_past_deliveries] comes to an
    end after at most [max(extra_pages, 0) + 1] page fetches, whatever
    the server answers: a zero or negative budget counts as exhausted and
    allows the one fetch of the first page.  In a round whose page has
    been fetched and extracted, an exhausted budget stops the loop, and so
    does, while budget remains, a page without [nextWeek]: this early stop
    logs an error-level notice and returns normally with everything
    collected so far. *)
Theorem get_past_deliveries_fetch_bound self n w :
  let out := HelloFresh.get_past_deliveries self n w in
  fst out ≠ OutOfFuel
  ∧ (∃ fetched,
       trace (snd out) = trace w ++ fetched
       ∧ Z.of_nat (length fetched) ≤ Z.max n 0 + 1
       ∧ Forall (λ e : exchange,
                   delivery_fetch (HelloFresh.base_url self) (fst e)) fetched)
  ∧ (∀ fuel self0 k w0 page self1 w1,
       accepted (net w0 (trace w0) (deliveries_request self0)) = Some page →
       HelloFresh.add_monthly_recipes self0 page
         (exchanged w0 (deliveries_request self0)) = (Return self1, w1) →
       HelloFresh.recipes self1
       = HelloFresh.recipes self0 ∪ page_recipes page
       ∧ trace w1 = trace w0 ++ [(deliveries_request self0,
                                  net w0 (trace w0) (deliveries_request self0))]
       ∧ (k ≤ 0 →
          HelloFresh.past_deliveries_loop fuel self0 k w0 = (Return self1, w1))
       ∧ (0 < k → field "nextWeek" page = None →
          HelloFresh.past_deliveries_loop fuel self0 k w0
          = (Return self1,
             logged (logged w1 DEBUG GettingMore) ERROR
               (NoMoreDeliveries k)))).
Proof.
  intros out. subst out. unfold HelloFresh.get_past_deliveries.
  change ((logging DEBUG GettingLastMonth ;;
           HelloFresh.past_deliveries_loop (Z.to_nat n) self n) w)
    with (HelloFresh.past_deliveries_loop (Z.to_nat n) self n
            (logged w DEBUG GettingLastMonth)).
  split; [by apply past_deliveries_loop_total|]. split.
  - destruct (past_deliveries_loop_grows (Z.to_nat n) self n
                (logged w DEBUG GettingLastMonth))
      as (_ & _ & _ & fetched & Ht & Hall & Hlen).
    exists fetched. split; [done|]. split; [lia|done].
  - intros fuel self0 k w0 page self1 w1 Hacc Hadd.
    pose proof (past_deliveries_loop_round fuel self0 k w0) as R.
    cbv zeta in R. rewrite Hacc, Hadd in R.
    pose proof (add_monthly_recipes_quiet self0 page
                  (exchanged w0 (deliveries_request self0))) as Hq.
    rewrite Hadd in Hq. apply grows_0_trace in Hq.
    apply add_monthly_recipes_Return in Hadd. subst self1.
    split; [done|]. split; [done|]. split.
    + intros Hk. destruct (0 <? k) eqn:E; [|done].
      apply Z.ltb_lt in E. lia.
    + intros Hk Hnext. rewrite Hnext in R.
      destruct (0 <? k) eqn:E; [done|]. apply Z.ltb_ge in E. lia.
Qed.

Lemma get_past_deliveries_fetch_bound_witness :
  HelloFresh.past_deliveries_loop 5 a_client 3
    (start (scripted [good last_page]) a_day)
  = (Return (HelloFresh.with_recipes a_client
               (HelloFresh.recipes a_client ∪ page_recipes last_page)),
     logged
       (logged
          (snd (HelloFresh.add_monthly_recipes a_client last_page
                  (exchanged (start (scripted [good last_page]) a_day)
                     (deliveries_request a_client))))
          DEBUG GettingMore)
       ERROR (NoMoreDeliveries 3)).
Proof.
  pose proof (proj2 (proj2 (get_past_deliveries_fetch_bound a_client 3
                              (start (scripted [good last_page]) a_day)))
                5%nat a_client 3 (start (scripted [good last_page]) a_day)
                last_page
                (HelloFresh.with_recipes a_client
                   (HelloFresh.recipes a_client ∪ page_recipes last_page))
                (snd (HelloFresh.add_monthly_recipes a_client last_page
                        (exchanged (start (scripted [good last_page]) a_day)
                           (deliveries_request a_client))))
                eq_refl) as H.
  destruct H as (_ & _ & _ & H); [by vm_compute|].
  apply H; [lia|reflexivity].
Defined.

(** C3 (as stated) fails for a negative budget: with [extra_pages = -1] the
    loop still fetches one page, which is more than [extra_pages + 1 = 0]. *)
Lemma get_past_deliveries_negative_budget_fetches_once :
  let out := HelloFresh.get_past_deliveries a_client (-1)
               (start (scripted [good last_page]) a_day) in
  length (trace (snd out)) = 1%nat
  ∧ ¬ (Z.of_nat (length (trace (snd out))) ≤ -1 + 1).
Proof. by vm_compute. Qed.

(** ** Tagging a recipe *)

Lemma json_request_trace url m hd ps data w :
  trace (snd (json_request url m hd ps data w))
  = trace w ++ (if supported m
                then [(wire url m hd ps data,
                       net w (trace w) (wire url m hd ps data))]
                else []).
Proof.
  destruct (supported m) eqn:Hm.
  - destruct (accepted (net w (trace w) (wire url m hd ps data)))
      as [j|] eqn:Hacc.
    + by rewrite (json_request_accepted _ _ _ _ _ _ j).
    + destruct (json_request_rejected url m hd ps data w) as [msg Hr];
        [done..|]. by rewrite Hr.
  - rewrite json_request_unsupported by done. simpl. by rewrite app_nil_r.
Qed.

Lemma bind_ret_snd {A} (m : M A) w :
  snd ((_ <- m ;; ret tt) w) = snd (m w).
Proof. unfold bind, ret. by destruct (m w) as [[a|e|c|] w1]. Qed.

Lemma get_mealie_recipe_accepted py_str self slug w doc :
  accepted (net w (trace w) (recipe_request py_str self slug)) = Some doc →
  Mealie.get_mealie_recipe py_str self slug w
  = (Return doc,
     exchanged (logged w DEBUG GettingRecipeId)
       (recipe_request py_str self slug)).
Proof.
  intros Hacc. unfold Mealie.get_mealie_recipe.
  rewrite (bind_Return _ _ _ tt (logged w DEBUG GettingRecipeId)) by done.
  by apply json_request_accepted.
Qed.

Lemma get_mealie_recipe_Return_inv py_str self slug w doc w' :
  Mealie.get_mealie_recipe py_str self slug w = (Return doc, w') →
  accepted (net w (trace w) (recipe_request py_str self slug)) = Some doc
  ∧ w' = exchanged (logged w DEBUG GettingRecipeId)
           (recipe_request py_str self slug).
Proof.
  unfold Mealie.get_mealie_recipe. intros H.
  rewrite (bind_Return _ _ _ tt (logged w DEBUG GettingRecipeId)) in H
    by done.
  by apply json_request_Return_inv in H as (_ & Hacc & ->).
Qed.

Lemma append_tag_run self doc the_tag patched w :
  Mealie.tag self = Some the_tag →
  with_tag_appended doc the_tag = Some patched →
  Mealie.append_tag self doc w = (Return patched, w).
Proof.
  unfold with_tag_appended, Mealie.append_tag, Mealie.get_tag.
  intros Htag H. destruct doc as [| | | | |fields]; try discriminate.
  unfold bind, lift. simpl.
  destruct (dict_get "tags" fields) as [[| | | |l|]|]; try discriminate.
  rewrite Htag. by inversion H.
Qed.

Lemma append_tag_Return_inv self doc patched w w' :
  Mealie.append_tag self doc w = (Return patched, w') →
  w' = w ∧ ∃ the_tag, Mealie.tag self = Some the_tag
                      ∧ with_tag_appended doc the_tag = Some patched.
Proof.
  unfold with_tag_appended, Mealie.append_tag, Mealie.get_tag.
  destruct doc as [| | | | |fields]; unfold bind, lift; simpl;
    try discriminate.
  destruct (dict_get "tags" fields) as [[| | | |l|]|]; try discriminate.
  destruct (Mealie.tag self) as [the_tag|]; [|discriminate].
  intros H. inversion H; subst. eauto.
Qed.

(** With the recipe fetched and the tag appended, what is left of
    [update_mealie_recipe] is the PATCH of the new document. *)
Lemma update_mealie_recipe_run py_str self slug w doc the_tag patched :
  accepted (net w (trace w) (recipe_request py_str self slug)) = Some doc →
  Mealie.tag self = Some the_tag →
  with_tag_appended doc the_tag = Some patched →
  Mealie.update_mealie_recipe py_str self slug w
  = (_ <- json_request
            (Mealie.base_url self +:+ "/api/recipes/" +:+ py_str slug)
            "patch" (Some (Mealie.headers self)) None (Some patched) ;;
     ret tt)
      (logged (exchanged (logged w DEBUG GettingRecipeId)
                 (recipe_request py_str self slug)) DEBUG PatchingRecipe).
Proof.
  intros Hacc Htag Hpatched. unfold Mealie.update_mealie_recipe.
  rewrite (bind_Return _ _ _ _ _
             (get_mealie_recipe_accepted _ _ _ _ _ Hacc)).
  rewrite (bind_Return _ _ _ _ _
             (append_tag_run _ _ _ _ _ Htag Hpatched)).
  done.
Qed.

Lemma update_mealie_recipe_Return_inv py_str self slug w w' :
  Mealie.update_mealie_recipe py_str self slug w = (Return tt, w') →
  ∃ doc the_tag patched,
    let w1 := logged (exchanged (logged w DEBUG GettingRecipeId)
                        (recipe_request py_str self slug))
                DEBUG PatchingRecipe in
    accepted (net w (trace w) (recipe_request py_str self slug)) = Some doc
    ∧ Mealie.tag self = Some the_tag
    ∧ with_tag_appended doc the_tag = Some patched
    ∧ is_Some (accepted (net w1 (trace w1)
                           (tagging_request py_str self slug patched)))
    ∧ w' = exchanged w1 (tagging_request py_str self slug patched).
Proof.
  unfold Mealie.update_mealie_recipe. intros H.
  apply bind_Return_inv in H as (doc & w1 & H1 & H).
  apply get_mealie_recipe_Return_inv in H1 as [Hacc ->].
  apply bind_Return_inv in H as (patched & w2 & H2 & H).
  apply append_tag_Return_inv in H2 as (-> & the_tag & Htag & Hp).
  apply bind_Return_inv in H as ([] & w3 & H3 & H).
  inversion H3; subst w3. clear H3.
  apply bind_Return_inv in H as (reply & w4 & H4 & H).
  apply json_request_Return_inv in H4 as (_ & Hacc4 & ->).
  inversion H; subst. exists doc, the_tag, patched. simpl.
  repeat split; auto.
Qed.

Lemma append_tag_fails self doc w :
  match Mealie.tag self with
  | Some t => with_tag_appended doc t
  | None => None
  end = None →
  ∃ e, Mealie.append_tag self doc w = (Raise e, w)
       ∧ e ∈ [KeyError; TypeError; AttributeError].
Proof.
  unfold with_tag_appended, Mealie.append_tag, Mealie.get_tag, bind, lift,
    raise.
  destruct doc as [| | | | |fields]; simpl;
    try (intros _; eexists; split; [reflexivity|set_solver]).
  destruct (dict_get "tags" fields) as [v|]; simpl;
    [|intros _; eexists; split; [reflexivity|set_solver]].
  destruct v; simpl;
    try (intros _; eexists; split; [reflexivity|set_solver]).
  destruct (Mealie.tag self); [discriminate|].
  intros _. eexists. split; [reflexivity|set_solver].
Qed.

(** C10: for a fetched recipe document, [update_mealie_recipe] sends a
    PATCH whose body is the fetched document with one change: under
    [tags], the old list with the active tag appended at its end.  Every
    other field keeps its value and every key its place.  The append is
    unconditional: when the active tag is already in the list, the new
    list holds it twice. *)
Theorem update_mealie_recipe_appends_tag py_str self slug w fields tags
    the_tag :
  accepted (net w (trace w) (recipe_request py_str self slug))
  = Some (JObj fields) →
  dict_get "tags" fields = Some (JArr tags) →
  Mealie.tag self = Some the_tag →
  let sent := dict_set "tags" (JArr (tags ++ [the_tag])) fields in
  let out := Mealie.update_mealie_recipe py_str self slug w in
  (∃ r1 r2,
     trace (snd out)
     = trace w ++ [(recipe_request py_str self slug, r1);
                   (tagging_request py_str self slug (JObj sent), r2)])
  ∧ dict_get "tags" sent = Some (JArr (tags ++ [the_tag]))
  ∧ (∀ k, k ≠ "tags" → dict_get k sent = dict_get k fields)
  ∧ map fst sent = map fst fields
  ∧ (the_tag ∈ tags → ¬ NoDup (tags ++ [the_tag])).
Proof.
  intros Hacc Htags Htag sent out. split; [|split; [|split; [|split]]].
  - subst out.
    rewrite (update_mealie_recipe_run _ _ _ _ (JObj fields) the_tag
               (JObj sent)); [|done..|].
    + rewrite bind_ret_snd, json_request_trace. simpl.
      rewrite <- app_assoc. simpl. eauto.
    + unfold with_tag_appended. by rewrite Htags.
  - apply dict_get_set_eq.
  - intros k Hk. by apply dict_get_set_ne.
  - apply dict_set_keys. by rewrite Htags.
  - intros Hin Hnd. apply NoDup_app in Hnd as (_ & Hdisj & _).
    apply (Hdisj the_tag Hin). by apply list_elem_of_singleton.
Qed.

Lemma update_mealie_recipe_appends_tag_witness :
  dict_set "tags" (JArr [a_tag; a_tag]) a_recipe
  = [("name", JStr "Pasta"); ("tags", JArr [a_tag; a_tag]);
     ("slug", JStr "pasta")]
  ∧ ¬ NoDup ([a_tag] ++ [a_tag]).
Proof.
  destruct (update_mealie_recipe_appends_tag str_of_scalar a_catalog
              (JStr "pasta")
              (start (scripted [good (JObj a_recipe); good (JObj a_recipe)])
                 a_day)
              a_recipe [a_tag] a_tag eq_refl eq_refl eq_refl)
    as (_ & _ & _ & _ & Hdup).
  split; [reflexivity|]. apply Hdup. by apply list_elem_of_singleton.
Defined.

(** ** Resolving or creating the tag *)

Lemma create_tag_accepted self tag w created :
  accepted (net w (trace w) (tag_creation_request self tag)) = Some created →
  Mealie.create_tag self tag w
  = (Return (Mealie.set_tag self created),
     logged (exchanged w (tag_creation_request self tag))
       DEBUG (TagCreated tag)).
Proof.
  intros Hacc. unfold Mealie.create_tag.
  by rewrite (bind_Return _ _ _ created
                (exchanged w (tag_creation_request self tag)))
    by (by apply json_request_accepted).
Qed.

(** No match: the tag is created. *)
Lemma set_tag_id_missing self tag w res items :
  accepted (net w (trace w) (tag_search_request self tag)) = Some res →
  field "items" res = Some items →
  truthy items = false →
  Mealie.set_tag_id self tag w
  = Mealie.create_tag self tag
      (logged (exchanged (logged w DEBUG (GettingTagInfos tag))
                 (tag_search_request self tag)) INFO (TagMissing tag)).
Proof.
  intros Hacc Hitems Hfalsy. unfold Mealie.set_tag_id.
  rewrite (bind_Return _ _ _ tt (logged w DEBUG (GettingTagInfos tag)))
    by done.
  rewrite (bind_Return _ _ _ res
             (exchanged (logged w DEBUG (GettingTagInfos tag))
                (tag_search_request self tag)))
    by (by apply json_request_accepted).
  apply getitem_str_Return in Hitems.
  unfold bind at 1, lift at 1. rewrite Hitems, Hfalsy. done.
Qed.

(** A match: the first one is adopted, and nothing else is sent. *)
Lemma set_tag_id_found self tag w res first rest :
  accepted (net w (trace w) (tag_search_request self tag)) = Some res →
  field "items" res = Some (JArr (first :: rest)) →
  Mealie.set_tag_id self tag w
  = (Return (Mealie.set_tag self first),
     exchanged (logged w DEBUG (GettingTagInfos tag))
       (tag_search_request self tag)).
Proof.
  intros Hacc Hitems. unfold Mealie.set_tag_id.
  rewrite (bind_Return _ _ _ tt (logged w DEBUG (GettingTagInfos tag)))
    by done.
  rewrite (bind_Return _ _ _ res
             (exchanged (logged w DEBUG (GettingTagInfos tag))
                (tag_search_request self tag)))
    by (by apply json_request_accepted).
  apply getitem_str_Return in Hitems.
  unfold bind, lift. by rewrite Hitems.
Qed.

Section OnDestination.

Variable matches : string → json → bool.
Variable new_tag : string → list json → json.
Variable initial : list json.

Lemma store_snoc base (tr : list exchange) (rq : request) r :
  Destination.store new_tag base initial (tr ++ [(rq, r)])
  = match Destination.is_tag_post base rq with
    | Some n => Destination.store new_tag base initial tr
                ++ [new_tag n (Destination.store new_tag base initial tr)]
    | None => Destination.store new_tag base initial tr
    end.
Proof. unfold Destination.store. by rewrite fold_left_app. Qed.

Lemma network_search self tag tr :
  Destination.network matches new_tag (Mealie.base_url self) initial tr
    (tag_search_request self tag)
  = Response 200
      (Some (JObj [("items",
                    JArr (filter (λ t, matches tag t = true)
                            (Destination.store new_tag (Mealie.base_url self)
                               initial tr)))])).
Proof.
  unfold Destination.network, tag_search_request. simpl.
  by rewrite String.eqb_refl.
Qed.

Lemma network_creation self tag tr :
  Destination.network matches new_tag (Mealie.base_url self) initial tr
    (tag_creation_request self tag)
  = Response 201
      (Some (new_tag tag
               (Destination.store new_tag (Mealie.base_url self) initial tr))).
Proof.
  unfold Destination.network, Destination.is_tag_post, tag_creation_request.
  simpl. by rewrite String.eqb_refl.
Qed.

Lemma is_tag_post_search self tag :
  Destination.is_tag_post (Mealie.base_url self) (tag_search_request self tag)
  = None.
Proof. reflexivity. Qed.

Lemma is_tag_post_creation self tag :
  Destination.is_tag_post (Mealie.base_url self)
    (tag_creation_request self tag) = Some tag.
Proof.
  unfold Destination.is_tag_post, tag_creation_request. simpl.
  by rewrite String.eqb_refl.
Qed.

(** One call of [set_tag_id] against the destination: it adopts the first
    stored tag that matches, or creates one tag and adopts it. *)
Lemma set_tag_id_on_destination self tag w :
  net w = Destination.network matches new_tag (Mealie.base_url self) initial →
  let tags := Destination.store new_tag (Mealie.base_url self) initial
                (trace w) in
  ∃ w1,
    net w1 = net w
    ∧ match filter (λ t, matches tag t = true) tags with
      | [] =>
          Mealie.set_tag_id self tag w
          = (Return (Mealie.set_tag self (new_tag tag tags)), w1)
          ∧ Destination.store new_tag (Mealie.base_url self) initial
              (trace w1) = tags ++ [new_tag tag tags]
      | first :: _ =>
          Mealie.set_tag_id self tag w
          = (Return (Mealie.set_tag self first), w1)
          ∧ Destination.store new_tag (Mealie.base_url self) initial
              (trace w1) = tags
      end.
Proof.
  intros Hnet tags.
  assert (Hsearch :
    accepted (net w (trace w) (tag_search_request self tag))
    = Some (JObj [("items", JArr (filter (λ t, matches tag t = true) tags))])).
  { by rewrite Hnet, network_search. }
  destruct (filter (λ t, matches tag t = true) tags) as [|first rest] eqn:Hf.
  - eexists. split; [|split].
    2:{ rewrite (set_tag_id_missing _ _ _ _ (JArr []) Hsearch) by done.
        apply create_tag_accepted. simpl. rewrite Hnet, network_creation.
        simpl. by rewrite store_snoc, is_tag_post_search. }
    + done.
    + simpl. rewrite store_snoc, is_tag_post_creation. simpl.
      rewrite store_snoc, is_tag_post_search. done.
  - eexists. split; [|split].
    2:{ by apply (set_tag_id_found _ _ _ _ first rest Hsearch). }
    + done.
    + simpl. by rewrite store_snoc, is_tag_post_search.
Qed.

End OnDestination.

Lemma create_tag_trace self tag w :
  trace (snd (Mealie.create_tag self tag w))
  = trace w ++ [(tag_creation_request self tag,
                 net w (trace w) (tag_creation_request self tag))].
Proof.
  unfold Mealie.create_tag.
  pose proof (json_request_trace
                (Mealie.base_url self +:+ "/api/organizers/tags") "post"
                (Some (Mealie.headers self)) None
                (Some (JObj [("name", JStr tag)])) w) as Ht.
  unfold bind at 1.
  by destruct (json_request _ _ _ _ _ w) as [[created|e|c|] w1].
Qed.

(** C9: [set_tag_id] resolves or creates the tag.  When the search by the
    name yields no match, one creation call is issued and its result is
    adopted; when it yields matches, the first is adopted and no creation
    call is issued.  Hence, against a destination whose tags persist
    between calls and which finds a tag by its own name, two calls with
    the same name create at most one tag, the second call creates none,
    and both calls adopt the same tag. *)
Theorem set_tag_id_idempotent :
  (∀ self tag w res items,
     accepted (net w (trace w) (tag_search_request self tag)) = Some res →
     field "items" res = Some items →
     let search := (tag_search_request self tag,
                    net w (trace w) (tag_search_request self tag)) in
     let w1 := exchanged (logged w DEBUG (GettingTagInfos tag))
                 (tag_search_request self tag) in
     let w2 := logged w1 INFO (TagMissing tag) in
     let creation := (tag_creation_request self tag,
                      net w2 (trace w2) (tag_creation_request self tag)) in
     (truthy items = false →
        trace (snd (Mealie.set_tag_id self tag w))
        = trace w ++ [search; creation]
        ∧ ∀ created, accepted (snd creation) = Some created →
            Mealie.set_tag_id self tag w
            = (Return (Mealie.set_tag self created),
               logged (exchanged w2 (tag_creation_request self tag))
                 DEBUG (TagCreated tag)))
     ∧ (∀ first rest, items = JArr (first :: rest) →
          Mealie.set_tag_id self tag w
          = (Return (Mealie.set_tag self first), w1)
          ∧ trace w1 = trace w ++ [search]))
  ∧ (∀ matches new_tag initial self tag w,
       (∀ tags, matches tag (new_tag tag tags) = true) →
       net w = Destination.network matches new_tag (Mealie.base_url self)
                 initial →
       let stored := Destination.store new_tag (Mealie.base_url self)
                       initial in
       ∃ self1 w1 self2 w2,
         Mealie.set_tag_id self tag w = (Return self1, w1)
         ∧ Mealie.set_tag_id self1 tag w1 = (Return self2, w2)
         ∧ is_Some (Mealie.tag self1)
         ∧ Mealie.tag self2 = Mealie.tag self1
         ∧ stored (trace w2) = stored (trace w1)
         ∧ (stored (trace w1) = stored (trace w)
            ∨ ∃ t, stored (trace w1) = stored (trace w) ++ [t]
                   ∧ Mealie.tag self1 = Some t)).
Proof.
  split.
  - intros self tag w res items Hacc Hitems search w1 w2 creation. split.
    + intros Hfalsy.
      rewrite (set_tag_id_missing _ _ _ _ _ Hacc Hitems Hfalsy). split.
      * rewrite create_tag_trace. simpl. by rewrite <- app_assoc.
      * intros created Hc. by apply create_tag_accepted.
    + intros first rest ->. split; [|done].
      by apply (set_tag_id_found _ _ _ _ first rest Hacc).
  - intros matches new_tag initial self tag w Hself Hnet stored.
    destruct (set_tag_id_on_destination matches new_tag initial self tag w
                Hnet) as (w1 & Hnet1 & H1).
    cbv zeta in H1. fold stored in H1.
    destruct (filter (λ t, matches tag t = true) (stored (trace w)))
      as [|first rest] eqn:Hf; destruct H1 as [Hrun1 Hstore1].
    + destruct (set_tag_id_on_destination matches new_tag initial
                  (Mealie.set_tag self (new_tag tag (stored (trace w))))
                  tag w1) as (w2 & Hnet2 & H2); [by rewrite Hnet1|].
      cbv zeta in H2. simpl Mealie.base_url in H2. fold stored in H2.
      rewrite Hstore1, filter_app, Hf in H2.
      rewrite filter_cons_True in H2 by apply Hself.
      rewrite filter_nil in H2. cbn [app] in H2.
      destruct H2 as [Hrun2 Hstore2].
      eexists _, w1, _, w2. split; [exact Hrun1|]. split; [exact Hrun2|].
      split; [by eexists|]. split; [done|]. split; [by rewrite Hstore2|].
      right. eexists. by split.
    + destruct (set_tag_id_on_destination matches new_tag initial
                  (Mealie.set_tag self first) tag w1)
        as (w2 & Hnet2 & H2); [by rewrite Hnet1|].
      cbv zeta in H2. simpl Mealie.base_url in H2. fold stored in H2.
      rewrite Hstore1, Hf in H2. destruct H2 as [Hrun2 Hstore2].
      eexists _, w1, _, w2. split; [exact Hrun1|]. split; [exact Hrun2|].
      split; [by eexists|]. split; [done|]. split; [by rewrite Hstore2|].
      by left.
Qed.

Lemma set_tag_id_idempotent_witness :
  let m := Mealie.init "https://food.syyrell.com" "token" in
  let w := start (Destination.network Destination.by_name Destination.numbered
                    "https://food.syyrell.com" []) a_day in
  ∃ self1 w1 self2 w2,
    Mealie.set_tag_id m "HelloFresh" w = (Return self1, w1)
    ∧ Mealie.set_tag_id self1 "HelloFresh" w1 = (Return self2, w2)
    ∧ Mealie.tag self2 = Mealie.tag self1
    ∧ Destination.store Destination.numbered "https://food.syyrell.com" []
        (trace w2)
      = [JObj [("id", JNum 0); ("name", JStr "HelloFresh")]].
Proof.
  intros m w.
  destruct (proj2 set_tag_id_idempotent Destination.by_name
              Destination.numbered [] m "HelloFresh" w
              (λ tags, eq_refl) eq_refl)
    as (self1 & w1 & self2 & w2 & H1 & H2 & _ & Ht & Hs2 & _).
  exists self1, w1, self2, w2. split; [done|]. split; [done|].
  split; [done|]. simpl in Hs2. rewrite Hs2.
  vm_compute in H1. by inversion H1.
Defined.

(** ** The reconciliation driver *)

Lemma creations_app es1 es2 :
  creations (es1 ++ es2) = creations es1 ++ creations es2.
Proof. unfold creations. by rewrite List.filter_app, map_app. Qed.

Lemma creations_none es : creation_calls es = 0%nat → creations es = [].
Proof.
  unfold creation_calls, creations. intros H.
  apply length_zero_iff_nil in H. by rewrite H.
Qed.

Lemma add_mealie_recipe_Return_inv m u w slug w' :
  Mealie.add_mealie_recipe m u w = (Return slug, w') →
  accepted (net w (trace w) (creation_request m u)) = Some slug
  ∧ w' = exchanged (logged w INFO (CreatingRecipe u)) (creation_request m u).
Proof.
  unfold Mealie.add_mealie_recipe. intros H.
  rewrite (bind_Return _ _ _ tt (logged w INFO (CreatingRecipe u))) in H
    by done.
  by apply json_request_Return_inv in H as (_ & Hacc & ->).
Qed.

Lemma creation_calls_app es1 es2 :
  creation_calls (es1 ++ es2) = (creation_calls es1 + creation_calls es2)%nat.
Proof. unfold creation_calls. by rewrite List.filter_app, length_app. Qed.

Lemma tagging_calls_app es1 es2 :
  tagging_calls (es1 ++ es2) = (tagging_calls es1 + tagging_calls es2)%nat.
Proof. unfold tagging_calls. by rewrite List.filter_app, length_app. Qed.

(** One import is one creation call and one tagging call. *)
Lemma import_of_calls py_str m u es :
  import_of py_str m u es → creation_calls es = 1%nat ∧ tagging_calls es = 1%nat.
Proof.
  intros (slug & doc & patched & r1 & r2 & r3 & the_tag & -> & _). done.
Qed.

Lemma imports_calls py_str m l ess :
  Forall2 (import_of py_str m) l ess →
  creation_calls (concat ess) = length l
  ∧ tagging_calls (concat ess) = length l.
Proof.
  induction 1 as [|u es l ess Hu _ [IHc IHt]]; [done|]. simpl.
  apply import_of_calls in Hu as [Hc Ht].
  rewrite creation_calls_app, tagging_calls_app, Hc, Ht, IHc, IHt. done.
Qed.

Lemma add_mealie_recipe_trace m u w :
  trace (snd (Mealie.add_mealie_recipe m u w))
  = trace w ++ [(creation_request m u, net w (trace w) (creation_request m u))].
Proof.
  unfold Mealie.add_mealie_recipe.
  rewrite (bind_Return _ _ _ tt (logged w INFO (CreatingRecipe u))) by done.
  by rewrite json_request_trace.
Qed.

Lemma get_mealie_recipe_trace py_str m slug w :
  trace (snd (Mealie.get_mealie_recipe py_str m slug w))
  = trace w ++ [(recipe_request py_str m slug,
                 net w (trace w) (recipe_request py_str m slug))].
Proof.
  unfold Mealie.get_mealie_recipe.
  rewrite (bind_Return _ _ _ tt (logged w DEBUG GettingRecipeId)) by done.
  by rewrite json_request_trace.
Qed.

Lemma append_tag_world m doc w : snd (Mealie.append_tag m doc w) = w.
Proof.
  unfold Mealie.append_tag, Mealie.get_tag, bind, lift, raise, ret.
  destruct (getitem_str doc "tags") as [[| | | |l|]| | |]; try done;
    destruct doc; try done.
  by destruct (Mealie.tag m).
Qed.

(** Whatever its outcome, [update_mealie_recipe] creates no recipe and
    sends at most one PATCH. *)
Lemma update_mealie_recipe_calls py_str m slug w :
  ∃ es, trace (snd (Mealie.update_mealie_recipe py_str m slug w))
        = trace w ++ es
        ∧ creation_calls es = 0%nat ∧ (tagging_calls es ≤ 1)%nat.
Proof.
  unfold Mealie.update_mealie_recipe.
  pose proof (get_mealie_recipe_trace py_str m slug w) as Hg.
  unfold bind at 1.
  destruct (Mealie.get_mealie_recipe py_str m slug w) as [[doc|e|c|] w1];
    simpl in Hg; try (eexists; split; [exact Hg|split; [done|unfold tagging_calls; simpl; lia]]).
  pose proof (append_tag_world m doc w1) as Ha.
  unfold bind at 1.
  destruct (Mealie.append_tag m doc w1) as [[patched|e|c|] w2];
    simpl in Ha; subst w2;
    try (eexists; split; [exact Hg|split; [done|unfold tagging_calls; simpl; lia]]).
  rewrite (bind_Return _ _ _ tt (logged w1 DEBUG PatchingRecipe)) by done.
  rewrite bind_ret_snd, json_request_trace. simpl. rewrite Hg.
  rewrite <- app_assoc. eexists. split; [reflexivity|]. split; [done|].
  unfold tagging_calls. simpl. lia.
Qed.

(** Whatever its outcome, one round of the live loop makes one creation
    call and at most one tagging call. *)
Lemma import_calls_any py_str m u w :
  ∃ es, trace (snd ((recipe_slug <- Mealie.add_mealie_recipe m u ;;
                     Mealie.update_mealie_recipe py_str m recipe_slug) w))
        = trace w ++ es
        ∧ creation_calls es = 1%nat ∧ (tagging_calls es ≤ 1)%nat.
Proof.
  pose proof (add_mealie_recipe_trace m u w) as Ha. unfold bind.
  destruct (Mealie.add_mealie_recipe m u w) as [[slug|e|c|] w1];
    simpl in Ha; try (eexists; split; [exact Ha|split; [done|unfold tagging_calls; simpl; lia]]).
  destruct (update_mealie_recipe_calls py_str m slug w1)
    as (es & Ht & Hc & Hp).
  rewrite Ht, Ha, <- app_assoc. eexists. split; [reflexivity|].
  rewrite creation_calls_app, tagging_calls_app, Hc. split; [done|].
  change (tagging_calls [(creation_request m u, _)]) with 0%nat. lia.
Qed.

(** Whatever its outcome, the live loop makes at most one creation call
    for each element it is given, and no more tagging calls than creation
    calls. *)
Lemma live_loop_calls_any py_str m (l : list hashable) w :
  ∃ es, trace (snd (for_each l (λ (_ : unit) new_recipe,
                      recipe_slug <- Mealie.add_mealie_recipe m
                                       (json_of_hashable new_recipe) ;;
                      Mealie.update_mealie_recipe py_str m recipe_slug)
                      tt w))
        = trace w ++ es
        ∧ (creation_calls es ≤ length l)%nat
        ∧ (tagging_calls es ≤ creation_calls es)%nat.
Proof.
  revert w. induction l as [|u l IH]; intros w.
  - exists []. simpl. by rewrite app_nil_r.
  - simpl for_each. unfold bind at 1.
    destruct (import_calls_any py_str m (json_of_hashable u) w)
      as (es & Ht & Hc & Hp).
    destruct ((recipe_slug <- Mealie.add_mealie_recipe m (json_of_hashable u) ;;
               Mealie.update_mealie_recipe py_str m recipe_slug) w)
      as [[[]|e|c|] w1]; simpl in Ht;
      try (exists es; split; [exact Ht|simpl; lia]).
    destruct (IH w1) as (es' & Ht' & Hc' & Hp').
    exists (es ++ es'). rewrite Ht', Ht, <- app_assoc.
    split; [done|]. rewrite creation_calls_app, tagging_calls_app.
    simpl. lia.
Qed.

(** ** One import, whatever the destination answers *)

Lemma add_mealie_recipe_run m u w :
  let rq := creation_request m u in
  let w1 := exchanged (logged w INFO (CreatingRecipe u)) rq in
  match accepted (net w (trace w) rq) with
  | Some slug => Mealie.add_mealie_recipe m u w = (Return slug, w1)
  | None => ∃ msg, Mealie.add_mealie_recipe m u w
                   = (SysExit 1, logged w1 ERROR msg)
  end.
Proof.
  cbv zeta. unfold Mealie.add_mealie_recipe.
  rewrite (bind_Return _ _ _ tt (logged w INFO (CreatingRecipe u))) by done.
  destruct (accepted (net w (trace w) (creation_request m u)))
    as [slug|] eqn:Hacc.
  - by apply json_request_accepted.
  - by apply json_request_rejected.
Qed.

Lemma get_mealie_recipe_rejected py_str self slug w :
  accepted (net w (trace w) (recipe_request py_str self slug)) = None →
  ∃ msg, Mealie.get_mealie_recipe py_str self slug w
         = (SysExit 1,
            logged (exchanged (logged w DEBUG GettingRecipeId)
                      (recipe_request py_str self slug)) ERROR msg).
Proof.
  intros Hacc. unfold Mealie.get_mealie_recipe.
  rewrite (bind_Return _ _ _ tt (logged w DEBUG GettingRecipeId)) by done.
  by apply json_request_rejected.
Qed.

(** What [update_mealie_recipe] does, case by case. *)
Lemma update_mealie_recipe_cases py_str m slug w :
  let g := recipe_request py_str m slug in
  let out := Mealie.update_mealie_recipe py_str m slug w in
  match accepted (net w (trace w) g) with
  | None =>
      fst out ≠ Return tt ∧ trace (snd out) = trace w ++ [(g, net w (trace w) g)]
  | Some doc =>
      match match Mealie.tag m with
            | Some the_tag => with_tag_appended doc the_tag
            | None => None
            end with
      | None =>
          fst out ≠ Return tt
          ∧ trace (snd out) = trace w ++ [(g, net w (trace w) g)]
      | Some patched =>
          ∃ r3,
            trace (snd out)
            = trace w ++ [(g, net w (trace w) g);
                          (tagging_request py_str m slug patched, r3)]
            ∧ match accepted r3 with
              | Some _ => fst out = Return tt
              | None => fst out ≠ Return tt
              end
      end
  end.
Proof.
  cbv zeta.
  destruct (accepted (net w (trace w) (recipe_request py_str m slug)))
    as [doc|] eqn:Hacc.
  - destruct (match Mealie.tag m with
              | Some the_tag => with_tag_appended doc the_tag
              | None => None
              end) as [patched|] eqn:Hp.
    + destruct (Mealie.tag m) as [the_tag|] eqn:Htag; [|discriminate].
      rewrite (update_mealie_recipe_run _ _ _ _ doc the_tag patched)
        by done.
      set (w3 := logged (exchanged (logged w DEBUG GettingRecipeId)
                           (recipe_request py_str m slug))
                   DEBUG PatchingRecipe).
      exists (net w3 (trace w3) (tagging_request py_str m slug patched)).
      destruct (accepted (net w3 (trace w3)
                            (tagging_request py_str m slug patched)))
        as [reply|] eqn:Hacc3.
      * rewrite (bind_Return _ _ _ reply
                   (exchanged w3 (tagging_request py_str m slug patched)))
          by (by apply json_request_accepted).
        split; [|done]. simpl. by rewrite <- app_assoc.
      * destruct (json_request_rejected
                    (Mealie.base_url m +:+ "/api/recipes/" +:+ py_str slug)
                    "patch" (Some (Mealie.headers m)) None (Some patched) w3)
          as [msg Hr]; [done..|].
        rewrite (bind_SysExit _ _ _ _ _ Hr). split; [|done].
        simpl. by rewrite <- app_assoc.
    + unfold Mealie.update_mealie_recipe.
      rewrite (bind_Return _ _ _ _ _
                 (get_mealie_recipe_accepted _ _ _ _ _ Hacc)).
      destruct (append_tag_fails m doc
                  (exchanged (logged w DEBUG GettingRecipeId)
                     (recipe_request py_str m slug)) Hp) as (e & He & _).
      by rewrite (bind_Raise _ _ _ _ _ He).
  - destruct (get_mealie_recipe_rejected py_str m slug w Hacc) as [msg Hr].
    unfold Mealie.update_mealie_recipe.
    by rewrite (bind_SysExit _ _ _ _ _ Hr).
Qed.

(** One round of the live loop is one import, or the beginning of one. *)
Lemma import_run py_str m u w :
  let out := (recipe_slug <- Mealie.add_mealie_recipe m (json_of_hashable u) ;;
              Mealie.update_mealie_recipe py_str m recipe_slug) w in
  ∃ es, trace (snd out) = trace w ++ es
        ∧ (fst out = Return tt ∧ import_of py_str m u es
           ∨ fst out ≠ Return tt ∧ broken_import py_str m u es).
Proof.
  cbv zeta.
  pose proof (add_mealie_recipe_run m (json_of_hashable u) w) as Ha.
  cbv zeta in Ha.
  set (c := creation_request m (json_of_hashable u)) in *.
  set (r1 := net w (trace w) c) in *.
  destruct (accepted r1) as [slug|] eqn:Hacc1.
  - rewrite (bind_Return _ _ _ _ _ Ha).
    set (w1 := exchanged (logged w INFO (CreatingRecipe (json_of_hashable u)))
                 c).
    pose proof (update_mealie_recipe_cases py_str m slug w1) as Hu.
    cbv zeta in Hu.
    set (g := recipe_request py_str m slug) in *.
    set (r2 := net w1 (trace w1) g) in *.
    destruct (accepted r2) as [doc|] eqn:Hacc2.
    + destruct (match Mealie.tag m with
                | Some the_tag => with_tag_appended doc the_tag
                | None => None
                end) as [patched|] eqn:Hp.
      * destruct Hu as (r3 & Ht & Hr).
        exists [(c, r1); (g, r2);
                (tagging_request py_str m slug patched, r3)].
        split; [rewrite Ht; simpl; by rewrite <- app_assoc|].
        destruct (Mealie.tag m) as [the_tag|] eqn:Htag; [|discriminate].
        destruct (accepted r3) as [reply|] eqn:Hacc3.
        -- left. split; [done|].
           exists slug, doc, patched, r1, r2, r3, the_tag.
           rewrite Hacc3. by repeat split.
        -- right. split; [done|]. exists r1. right. exists slug, r2.
           split; [done|]. right. exists doc, the_tag, patched, r3.
           by repeat split.
      * destruct Hu as [Hr Ht]. exists [(c, r1); (g, r2)].
        split; [rewrite Ht; simpl; by rewrite <- app_assoc|].
        right. split; [done|]. exists r1. right. exists slug, r2.
        split; [done|]. left. split; [done|]. by rewrite Hacc2.
    + destruct Hu as [Hr Ht]. exists [(c, r1); (g, r2)].
      split; [rewrite Ht; simpl; by rewrite <- app_assoc|].
      right. split; [done|]. exists r1. right. exists slug, r2.
      split; [done|]. left. split; [done|]. by rewrite Hacc2.
  - destruct Ha as [msg Ha]. rewrite (bind_SysExit _ _ _ _ _ Ha).
    exists [(c, r1)]. split; [done|]. right. split; [done|].
    exists r1. by left.
Qed.

(** The live loop imports the elements it is given one after the other,
    in their order, and goes on to the end unless an import breaks. *)
Lemma live_loop_run py_str m (l : list hashable) w :
  let out := for_each l (λ (_ : unit) new_recipe,
               recipe_slug <- Mealie.add_mealie_recipe m
                                (json_of_hashable new_recipe) ;;
               Mealie.update_mealie_recipe py_str m recipe_slug) tt w in
  ∃ imported rest imports partial,
    l = imported ++ rest
    ∧ trace (snd out) = trace w ++ concat imports ++ partial
    ∧ Forall2 (import_of py_str m) imported imports
    ∧ match rest with
      | [] => fst out = Return tt ∧ partial = []
      | u :: _ => fst out ≠ Return tt ∧ broken_import py_str m u partial
      end.
Proof.
  cbv zeta. revert w. induction l as [|u l IH]; intros w.
  - exists [], [], [], []. simpl. by rewrite app_nil_r.
  - destruct (import_run py_str m u w) as (es & Ht & Hcase).
    cbv zeta in Ht, Hcase. simpl for_each.
    destruct ((recipe_slug <- Mealie.add_mealie_recipe m (json_of_hashable u) ;;
               Mealie.update_mealie_recipe py_str m recipe_slug) w)
      as [[[]|e|c|] w1] eqn:E; simpl in Ht, Hcase.
    + destruct Hcase as [[_ Himp]|[Hr _]]; [|done].
      rewrite (bind_Return _ _ _ _ _ E).
      destruct (IH w1) as (imported & rest & imports & partial
                           & -> & Ht' & Himps & Hrest).
      exists (u :: imported), rest, (es :: imports), partial.
      split; [done|]. split; [|split; [by constructor|done]].
      rewrite Ht', Ht. simpl. by rewrite <- !app_assoc.
    + destruct Hcase as [[Hr _]|[_ Hb]]; [done|].
      rewrite (bind_Raise _ _ _ _ _ E).
      exists [], (u :: l), [], es.
      split; [done|]. split; [exact Ht|]. split; [constructor|].
      split; [done|exact Hb].
    + destruct Hcase as [[Hr _]|[_ Hb]]; [done|].
      rewrite (bind_SysExit _ _ _ _ _ E).
      exists [], (u :: l), [], es.
      split; [done|]. split; [exact Ht|]. split; [constructor|].
      split; [done|exact Hb].
    + destruct Hcase as [[Hr _]|[_ Hb]]; [done|].
      rewrite (bind_OutOfFuel _ _ _ _ E).
      exists [], (u :: l), [], es.
      split; [done|]. split; [exact Ht|]. split; [constructor|].
      split; [done|exact Hb].
Qed.

Lemma import_of_creations py_str m u es :
  import_of py_str m u es
  → creations es = [creation_request m (json_of_hashable u)].
Proof.
  intros (slug & doc & patched & r1 & r2 & r3 & the_tag & -> & _). done.
Qed.

Lemma imports_creations py_str m l ess :
  Forall2 (import_of py_str m) l ess →
  creations (concat ess)
  = map (λ u, creation_request m (json_of_hashable u)) l.
Proof.
  induction 1 as [|u es l ess Hu _ IH]; [done|]. simpl.
  by rewrite creations_app, (import_of_creations _ _ _ _ Hu), IH.
Qed.

Lemma broken_import_calls py_str m u es :
  broken_import py_str m u es →
  creation_calls es = 1%nat ∧ (tagging_calls es ≤ 1)%nat.
Proof.
  intros (r1 & [[-> _]|(slug & r2 & _ & [[-> _]|H])]).
  - split; [reflexivity|unfold tagging_calls; simpl; lia].
  - split; [reflexivity|unfold tagging_calls; simpl; lia].
  - destruct H as (doc & the_tag & patched & r3 & -> & _).
    split; [reflexivity|unfold tagging_calls; simpl; lia].
Qed.

Lemma reported_report_lines (missing : list hashable) :
  reported (report_lines missing) = map json_of_hashable missing.
Proof.
  unfold report_lines, reported. destruct missing as [|u l]; [done|].
  simpl. f_equal. induction l as [|v l IH]; [done|]. simpl. by rewrite IH.
Qed.

Section DriverProperties.

Variable py_str : json → string.
Variable set_order : gset hashable → list hashable.

(** A [for] loop over a set visits each of its members once, in an order
    of its own. *)
Hypothesis set_order_perm : ∀ X, set_order X ≡ₚ elements X.

Lemma set_order_elem X u : u ∈ set_order X ↔ u ∈ X.
Proof. rewrite (set_order_perm X). apply elem_of_elements. Qed.

Lemma set_order_NoDup X : NoDup (set_order X).
Proof. rewrite (set_order_perm X). apply NoDup_elements. Qed.

Lemma set_order_length X : length (set_order X) = size X.
Proof. by rewrite (set_order_perm X). Qed.

Lemma set_order_empty : set_order ∅ = [].
Proof.
  apply Permutation_nil. rewrite (set_order_perm ∅). by rewrite elements_empty.
Qed.

(** The reporting loop of the dry run only logs. *)
Lemma report_loop (l : list hashable) w :
  let out := for_each l (λ (_ : unit) recipe,
               logging INFO (RecipeLine (json_of_hashable recipe))) tt w in
  fst out = Return tt
  ∧ net (snd out) = net w ∧ trace (snd out) = trace w
  ∧ log (snd out)
    = log w ++ map (λ u, (INFO, RecipeLine (json_of_hashable u))) l.
Proof.
  revert w. induction l as [|u l IH]; intros w; simpl.
  - by rewrite app_nil_r.
  - rewrite (bind_Return _ _ _ tt
               (logged w INFO (RecipeLine (json_of_hashable u)))) by done.
    destruct (IH (logged w INFO (RecipeLine (json_of_hashable u))))
      as (H1 & H2 & H3 & H4).
    repeat split; auto. rewrite H4. simpl. by rewrite <- app_assoc.
Qed.

(** The dry run: a report, then [exit(0)]; nothing is sent. *)
Lemma reconcile_dry_run a hf m w :
  dry_run a = true →
  let out := reconcile py_str set_order a hf m w in
  fst out = SysExit 0
  ∧ net (snd out) = net w ∧ trace (snd out) = trace w
  ∧ log (snd out)
    = log w ++ report set_order
                 (HelloFresh.recipes hf ∖ Mealie.tagged_recipes m).
Proof.
  intros Hdry. unfold reconcile, report. rewrite Hdry.
  set (missing := HelloFresh.recipes hf ∖ Mealie.tagged_recipes m).
  destruct (0 <? size missing)%nat.
  - destruct (report_loop (set_order missing)
                (logged w INFO (WouldHaveAdded (size missing))))
      as (H1 & H2 & H3 & H4).
    destruct (for_each (set_order missing)
                (λ (_ : unit) recipe,
                   logging INFO (RecipeLine (json_of_hashable recipe))) tt
                (logged w INFO (WouldHaveAdded (size missing))))
      as [r w1] eqn:E.
    simpl in H1, H2, H3, H4. subst r.
    rewrite (bind_Return _ _ _ tt w1).
    + simpl. repeat split; auto. rewrite H4. by rewrite <- app_assoc.
    + by rewrite (bind_Return _ _ _ tt
                    (logged w INFO (WouldHaveAdded (size missing)))).
  - done.
Qed.

(** One round of the live loop that completes is one import. *)
Lemma import_Return_inv m u w w' :
  (recipe_slug <- Mealie.add_mealie_recipe m (json_of_hashable u) ;;
   Mealie.update_mealie_recipe py_str m recipe_slug) w = (Return tt, w') →
  ∃ es, import_of py_str m u es ∧ trace w' = trace w ++ es.
Proof.
  intros H. apply bind_Return_inv in H as (slug & w1 & H1 & H).
  apply add_mealie_recipe_Return_inv in H1 as [Hacc1 ->].
  apply update_mealie_recipe_Return_inv in H
    as (doc & the_tag & patched & Hacc2 & Htag & Hp & Hacc3 & ->).
  eexists. split.
  - exists slug, doc, patched. do 3 eexists. exists the_tag.
    split; [reflexivity|]. repeat split; [exact Hacc1|exact Hacc2|done..].
  - simpl. by rewrite <- !app_assoc.
Qed.

Lemma live_loop_Return_inv m (l : list hashable) w w' :
  for_each l (λ (_ : unit) new_recipe,
    recipe_slug <- Mealie.add_mealie_recipe m (json_of_hashable new_recipe) ;;
    Mealie.update_mealie_recipe py_str m recipe_slug) tt w = (Return tt, w') →
  ∃ imports, Forall2 (import_of py_str m) l imports
             ∧ trace w' = trace w ++ concat imports.
Proof.
  revert w. induction l as [|u l IH]; intros w H.
  - inversion H; subst. exists []. split; [constructor|].
    simpl. by rewrite app_nil_r.
  - apply for_each_cons_Return_inv in H as ([] & w1 & H1 & H).
    apply import_Return_inv in H1 as (es & Hes & Ht1).
    apply IH in H as (imports & Himp & Ht).
    exists (es :: imports). split; [by constructor|].
    rewrite Ht, Ht1. simpl. by rewrite <- app_assoc.
Qed.

Lemma report_walked (X : gset hashable) :
  report set_order X = report_lines (set_order X).
Proof.
  unfold report, report_lines.
  rewrite <- (set_order_length X).
  by destruct (set_order X).
Qed.

(** C1: the driver works on [missing = source − destination_tagged].  The
    recipe references a run walks are exactly those that are in the
    source collection and not in the destination-tagged one, each once,
    whatever the order in which the set is walked.  A dry run lists
    exactly these references in its log, sends nothing and exits with
    code 0.  A live run imports them one after the other and goes on
    until all are imported, unless an import breaks: it then stops with
    the exchanges of that import as the last of its trace. *)
Theorem reconcile_on_set_difference a hf m w :
  let out := reconcile py_str set_order a hf m w in
  ∃ missing : list hashable,
    (∀ u, u ∈ missing
          ↔ u ∈ HelloFresh.recipes hf ∧ u ∉ Mealie.tagged_recipes m)
    ∧ NoDup missing
    ∧ if dry_run a then
        fst out = SysExit 0
        ∧ trace (snd out) = trace w
        ∧ log (snd out) = log w ++ report_lines missing
      else
        ∃ imported rest imports partial,
          missing = imported ++ rest
          ∧ trace (snd out) = trace w ++ concat imports ++ partial
          ∧ Forall2 (import_of py_str m) imported imports
          ∧ match rest with
            | [] => fst out = Return tt ∧ partial = []
            | u :: _ =>
                fst out ≠ Return tt ∧ broken_import py_str m u partial
            end.
Proof.
  intros out.
  exists (set_order (HelloFresh.recipes hf ∖ Mealie.tagged_recipes m)).
  split; [|split].
  - intros u. rewrite set_order_elem.
    apply elem_of_difference.
  - apply set_order_NoDup.
  - destruct (dry_run a) eqn:Hdry.
    + destruct (reconcile_dry_run a hf m w Hdry)
        as (H1 & _ & H3 & H4).
      fold out in H1, H3, H4. by rewrite <- report_walked.
    + subst out. unfold reconcile. rewrite Hdry. apply live_loop_run.
Qed.

(** C6: in live mode the driver makes one recipe-creation call and one
    tagging call per element of the missing set.  For every destination,
    the run imports the elements in the order it walks the set, each
    import being the creation call, the fetch of the recipe under the
    identifier the creation returned and the PATCH addressed to that same
    identifier; it goes on to the last element and completes, with
    exactly one creation and one tagging call per element, unless an
    import breaks, and then it stops at that import without completing.
    Whatever the outcome, it never makes more creation calls than the set
    has elements, nor more tagging calls than creation calls.  With an
    empty missing set the live run completes without any call. *)
Theorem live_run_imports_each_missing a hf m w :
  dry_run a = false →
  let missing := HelloFresh.recipes hf ∖ Mealie.tagged_recipes m in
  let out := reconcile py_str set_order a hf m w in
  (∃ imported rest imports partial,
     set_order missing = imported ++ rest
     ∧ trace (snd out) = trace w ++ concat imports ++ partial
     ∧ Forall2 (import_of py_str m) imported imports
     ∧ creation_calls (concat imports) = length imported
     ∧ tagging_calls (concat imports) = length imported
     ∧ match rest with
       | [] => fst out = Return tt ∧ partial = []
               ∧ length imported = size missing
       | u :: _ =>
           fst out ≠ Return tt ∧ broken_import py_str m u partial
           ∧ creation_calls partial = 1%nat
           ∧ (tagging_calls partial ≤ 1)%nat
       end)
  ∧ (∃ sent,
       trace (snd out) = trace w ++ sent
       ∧ (creation_calls sent ≤ size missing)%nat
       ∧ (tagging_calls sent ≤ creation_calls sent)%nat)
  ∧ (∀ w', out = (Return tt, w') →
       ∃ imports,
         trace w' = trace w ++ concat imports
         ∧ Forall2 (import_of py_str m) (set_order missing) imports
         ∧ creation_calls (concat imports) = size missing
         ∧ tagging_calls (concat imports) = size missing)
  ∧ (missing = ∅ → out = (Return tt, w)).
Proof.
  intros Hlive missing out. subst out. split; [|split; [|split]].
  - unfold reconcile. rewrite Hlive. fold missing.
    destruct (live_loop_run py_str m (set_order missing) w)
      as (imported & rest & imports & partial & Hl & Ht & Himp & Hrest).
    cbv zeta in Ht, Hrest.
    exists imported, rest, imports, partial.
    split; [done|]. split; [done|]. split; [done|].
    destruct (imports_calls _ _ _ _ Himp) as [Hc Hp].
    split; [done|]. split; [done|].
    destruct rest as [|u rest].
    + destruct Hrest as [Hr ->]. split; [done|]. split; [done|].
      rewrite <- (set_order_length missing), Hl.
      by rewrite app_nil_r.
    + destruct Hrest as [Hr Hb]. split; [done|]. split; [done|].
      by apply broken_import_calls in Hb.
  - unfold reconcile. rewrite Hlive. fold missing.
    rewrite <- (set_order_length missing).
    apply live_loop_calls_any.
  - intros w' H. unfold reconcile in H. rewrite Hlive in H.
    apply live_loop_Return_inv in H as (imports & Himp & Ht).
    exists imports. split; [done|]. split; [done|].
    rewrite <- (set_order_length missing).
    by apply imports_calls in Himp.
  - intros Hempty. unfold reconcile. rewrite Hlive. fold missing.
    by rewrite Hempty, set_order_empty.
Qed.

End DriverProperties.

Lemma backwards_perm (X : gset hashable) : backwards X ≡ₚ elements X.
Proof. apply reverse_Permutation. Qed.

Lemma abc_minus_b (u : hashable) :
  u ∈ HelloFresh.recipes abc_client ∧ u ∉ Mealie.tagged_recipes b_catalog
  ↔ u ∈ [HStr "A"; HStr "C"].
Proof.
  simpl. rewrite !elem_of_union, !elem_of_singleton, !elem_of_cons,
    elem_of_nil.
  split.
  - intros [[[->| ->]| ->] H]; auto; by destruct H.
  - intros [->|[->|[]]]; (split; [auto|discriminate]).
Qed.

Lemma reconcile_on_set_difference_witness :
  let dry := reconcile str_of_scalar elements dry_args abc_client b_catalog
               (start (scripted []) a_day) in
  let live := reconcile str_of_scalar backwards live_args abc_client
                b_catalog (start (scripted two_imports) a_day) in
  (fst dry = SysExit 0
   ∧ reported (log (snd dry)) ≡ₚ [JStr "A"; JStr "C"])
  ∧ (fst live = Return tt
     ∧ map body (creations (trace (snd live)))
       ≡ₚ [Some (JObj [("url", JStr "A")]);
           Some (JObj [("url", JStr "C")])]).
Proof.
  intros dry live.
  assert (Hwalk : ∀ missing : list hashable,
            (∀ u, u ∈ missing
                  ↔ u ∈ HelloFresh.recipes abc_client
                    ∧ u ∉ Mealie.tagged_recipes b_catalog) →
            NoDup missing → missing ≡ₚ [HStr "A"; HStr "C"]).
  { intros missing Hin Hnd. apply NoDup_Permutation; [done| |].
    - apply NoDup_cons. split; [|apply NoDup_singleton].
      rewrite elem_of_cons, elem_of_nil. by intros [|[]].
    - intros u. by rewrite Hin, abc_minus_b. }
  split.
  - destruct (reconcile_on_set_difference str_of_scalar elements
                (λ X, reflexivity (elements X)) dry_args abc_client
                b_catalog (start (scripted []) a_day))
      as (missing & Hin & Hnd & Hexit & _ & Hlog).
    fold dry in Hexit, Hlog. split; [exact Hexit|].
    rewrite Hlog. change (log (start (scripted []) a_day) ++ ?l) with l.
    rewrite reported_report_lines.
    change [JStr "A"; JStr "C"]
      with (map json_of_hashable [HStr "A"; HStr "C"]).
    apply Permutation_map. by apply Hwalk.
  - destruct (reconcile_on_set_difference str_of_scalar backwards
                backwards_perm live_args abc_client b_catalog
                (start (scripted two_imports) a_day))
      as (missing & Hin & Hnd & imported & rest & imports & partial
          & Hl & Ht & Himp & Hrest).
    fold live in Ht, Hrest.
    assert (Hrun : fst live = Return tt) by (clear; vm_compute; reflexivity).
    split; [exact Hrun|].
    destruct rest as [|u rest];
      [|destruct Hrest as [Hr _]; destruct (Hr Hrun)].
    destruct Hrest as [_ ->]. rewrite app_nil_r in Hl. subst imported.
    rewrite Ht.
    change (trace (start (scripted two_imports) a_day) ++ ?l) with l.
    rewrite app_nil_r, (imports_creations _ _ _ _ Himp), map_map.
    change [Some (JObj [("url", JStr "A")]); Some (JObj [("url", JStr "C")])]
      with (map (λ u, body (creation_request b_catalog (json_of_hashable u)))
              [HStr "A"; HStr "C"]).
    apply Permutation_map. by apply Hwalk.
Defined.

(** Source {A, B, C} and destination-tagged {B}: the dry run reports the
    two missing recipes A and C. *)
Example dry_run_reports_A_and_C :
  log (snd (reconcile str_of_scalar elements dry_args abc_client b_catalog
              (start (scripted []) a_day)))
  ≡ₚ [(INFO, WouldHaveAdded 2); (INFO, RecipeLine (JStr "A"));
      (INFO, RecipeLine (JStr "C"))].
Proof. vm_compute. first [reflexivity | apply perm_skip, perm_swap]. Qed.

Lemma live_run_imports_each_missing_witness :
  let out := reconcile str_of_scalar backwards live_args abc_client
               b_catalog (start (scripted two_imports) a_day) in
  fst out = Return tt
  ∧ creation_calls (trace (snd out)) = 2%nat
  ∧ tagging_calls (trace (snd out)) = 2%nat.
Proof.
  intros out.
  destruct (proj1 (live_run_imports_each_missing str_of_scalar backwards
                     backwards_perm live_args abc_client b_catalog
                     (start (scripted two_imports) a_day) eq_refl))
    as (imported & rest & imports & partial & Hl & Ht & Himp & Hc & Hp
        & Hrest).
  fold out in Ht, Hrest.
  assert (Hrun : fst out = Return tt) by (clear; vm_compute; reflexivity).
  split; [exact Hrun|].
  destruct rest as [|u rest];
      [|destruct Hrest as [Hr _]; destruct (Hr Hrun)].
  destruct Hrest as (_ & -> & Hlen).
  rewrite Ht.
  change (trace (start (scripted two_imports) a_day) ++ ?l) with l.
  rewrite app_nil_r, Hc, Hp, Hlen. clear. vm_compute. split; reflexivity.
Defined.

(** ** The dry run *)

Lemma confined_of_bounded {A} P b (m : M A) : bounded P b m → confined P m.
Proof. intros H w. exists b. apply H. Qed.

Lemma confined_bind {A B} P (m : M A) (k : A → M B) :
  confined P m → (∀ a, confined P (k a)) → confined P (bind m k).
Proof.
  intros Hm Hk w. destruct (Hm w) as [b1 H1]. unfold bind.
  destruct (m w) as [[a|e|c|] w1]; simpl in *; try (by exists b1).
  destruct (Hk a w1) as [b2 H2]. exists (b1 + b2)%nat.
  by eapply grows_trans.
Qed.

Lemma confined_ret {A} P (a : A) : confined P (ret a).
Proof. eapply confined_of_bounded, bounded_ret. Qed.

Lemma confined_lift {A} P (r : outcome A) : confined P (lift r).
Proof. eapply confined_of_bounded, bounded_lift. Qed.

Lemma confined_logging P l msg : confined P (logging l msg).
Proof. eapply confined_of_bounded, bounded_logging. Qed.

Lemma confined_for_each {A St} P (l : list A) (body : St → A → M St) st :
  (∀ st x, confined P (body st x)) → confined P (for_each l body st).
Proof.
  intros Hb. revert st. induction l as [|x l IH]; intros st; simpl.
  - apply confined_ret.
  - apply confined_bind; auto.
Qed.

Lemma confined_json_request (P : request → Prop) url m hd ps data :
  P (wire url m hd ps data) → confined P (json_request url m hd ps data).
Proof.
  intros HP. eapply confined_of_bounded, bounded_weaken;
    [|reflexivity|apply json_request_bounded].
  by intros rq ->.
Qed.

Ltac confine :=
  repeat first
    [ apply confined_ret | apply confined_lift | apply confined_logging
    | apply confined_json_request; by left
    | apply confined_bind; [|intros ?]
    | apply confined_for_each; intros ? ? ].

Lemma set_customer_id_confined tag self :
  confined (reads_or_creates_tag tag) (HelloFresh.set_customer_id self).
Proof. unfold HelloFresh.set_customer_id. confine. Qed.

Lemma set_current_week_confined tag self :
  confined (reads_or_creates_tag tag) (HelloFresh.set_current_week self).
Proof. intros w. exists 0%nat. apply grows_logged. Qed.

Lemma get_past_deliveries_confined tag self n :
  confined (reads_or_creates_tag tag) (HelloFresh.get_past_deliveries self n).
Proof.
  unfold HelloFresh.get_past_deliveries.
  apply confined_bind; [apply confined_logging|intros _].
  intros w. exists (S (Z.to_nat n)).
  eapply grows_weaken; [| |apply past_deliveries_loop_grows]; [|done].
  intros rq [Hm _]. by left.
Qed.

Lemma get_tagged_recipes_confined tag self :
  Mealie.base_url self = "https://food.syyrell.com" →
  confined (reads_or_creates_tag tag) (Mealie.get_tagged_recipes self tag).
Proof.
  intros Hbase.
  unfold Mealie.get_tagged_recipes, Mealie.set_tag_id, Mealie.create_tag,
    Mealie.get_tag.
  apply confined_bind; [|intros self1].
  - apply confined_bind; [apply confined_logging|intros _].
    apply confined_bind; [apply confined_json_request; by left|intros res].
    apply confined_bind; [apply confined_lift|intros items].
    destruct (negb (truthy items)); [|confine].
    apply confined_bind; [apply confined_logging|intros _].
    apply confined_bind; [|confine].
    apply confined_json_request. right. simpl. by rewrite Hbase.
  - destruct (Mealie.tag self1); confine.
Qed.

Section DryRun.

Variable py_str : json → string.
Variable set_order : gset hashable → list hashable.

Lemma reconcile_dry_run_confined a hf m :
  dry_run a = true →
  confined (reads_or_creates_tag (mealie_tag a))
    (reconcile py_str set_order a hf m).
Proof.
  intros Hdry. unfold reconcile. rewrite Hdry.
  apply confined_bind; [|intros _; apply confined_lift].
  destruct (0 <? size _)%nat; confine.
Qed.

Lemma main_dry_run_confined a :
  dry_run a = true →
  confined (reads_or_creates_tag (mealie_tag a)) (main py_str set_order a).
Proof.
  intros Hdry. unfold main.
  apply confined_bind; [by intros w; exists 0%nat; apply grows_refl|].
  intros [hellofresh_token|]; [|confine].
  apply confined_bind; [by intros w; exists 0%nat; apply grows_refl|].
  intros [mealie_token|]; [|confine].
  apply confined_bind; [apply set_customer_id_confined|intros hf1].
  apply confined_bind; [apply set_current_week_confined|intros hf2].
  apply confined_bind; [apply get_past_deliveries_confined|intros hf3].
  apply confined_bind; [apply confined_logging|intros _].
  apply confined_bind; [by apply get_tagged_recipes_confined|intros m].
  by apply reconcile_dry_run_confined.
Qed.

(** Requests that only read, or create the tag, are neither recipe
    creations nor taggings. *)
Lemma reads_or_creates_tag_calls tag (es : list exchange) :
  Forall (λ e : exchange, reads_or_creates_tag tag (fst e)) es →
  creation_calls es = 0%nat ∧ tagging_calls es = 0%nat.
Proof.
  unfold creation_calls, tagging_calls, is_creation, is_tagging.
  induction 1 as [|[rq r] es Hrq _ [IHc IHt]]; [done|]. simpl.
  destruct Hrq as [Hm|(Hm & _ & Hb)]; simpl in *; rewrite Hm; simpl;
    [done|]. by rewrite Hb.
Qed.

(** What does hold of every dry run: the driver makes no recipe-creation
    call and no tagging call, whatever the two URL sets are.  From the
    point where the sets are known it sends nothing at all, logs its
    report and exits with code 0.  Over the whole run every request is a
    GET, save for the POST that creates the run's tag when the tag search
    found none. *)
Theorem dry_run_makes_no_recipe_call a :
  dry_run a = true →
  (∀ hf m w,
     let out := reconcile py_str set_order a hf m w in
     fst out = SysExit 0 ∧ trace (snd out) = trace w
     ∧ log (snd out)
       = log w ++ report set_order
                    (HelloFresh.recipes hf ∖ Mealie.tagged_recipes m))
  ∧ (∀ w,
       let out := main py_str set_order a w in
       ∃ sent,
         trace (snd out) = trace w ++ sent
         ∧ Forall (λ e : exchange,
                     reads_or_creates_tag (mealie_tag a) (fst e)) sent
         ∧ creation_calls sent = 0%nat ∧ tagging_calls sent = 0%nat).
Proof.
  intros Hdry. split.
  - intros hf m w.
    destruct (reconcile_dry_run py_str set_order a hf m w Hdry)
      as (H1 & _ & H3 & H4). by repeat split.
  - intros w out. subst out.
    destruct (main_dry_run_confined a Hdry w)
      as (b & _ & _ & _ & sent & Ht & Hall & _).
    exists sent. split; [done|]. split; [done|].
    by apply (reads_or_creates_tag_calls (mealie_tag a)).
Qed.

End DryRun.

Lemma dry_run_makes_no_recipe_call_witness :
  let out := main str_of_scalar elements dry_args
               (start fresh_destination a_day) in
  fst out = SysExit 0
  ∧ creation_calls (trace (snd out)) = 0%nat
  ∧ tagging_calls (trace (snd out)) = 0%nat.
Proof.
  intros out.
  destruct (proj2 (dry_run_makes_no_recipe_call str_of_scalar elements
                     dry_args eq_refl) (start fresh_destination a_day))
    as (sent & Ht & _ & Hc & Hp).
  split; [by vm_compute|]. subst out. rewrite Ht. simpl. rewrite Hc, Hp.
  clear. split; reflexivity.
Defined.

(** C5: a dry run against a destination that does not hold the tag yet
    does not leave it unchanged.  [get_tagged_recipes] runs before the
    [if args.dry_run] test and creates the tag: the run exits with code 0,
    and the tag store of the destination, empty before, holds a tag
    afterwards. *)
Theorem dry_run_creates_the_missing_tag :
  let w := start fresh_destination a_day in
  let out := main str_of_scalar elements dry_args w in
  let stored := Destination.store Destination.numbered
                  "https://food.syyrell.com" [] in
  dry_run dry_args = true
  ∧ fst out = SysExit 0
  ∧ stored (trace w) = []
  ∧ stored (trace (snd out))
    = [JObj [("id", JNum 0); ("name", JStr "HelloFresh")]].
Proof. vm_compute. repeat split; reflexivity. Qed.

(** * Further properties of the code *)

(** ** Which pages [add_monthly_recipes] accepts *)

(** X1: [add_monthly_recipes] completes exactly on the pages whose [weeks]
    can be walked, each week being an object whose [meals] can be walked,
    each meal being an object with a hashable [websiteURL].  On any other
    page it raises KeyError or TypeError, and in no case does it exit or
    send a request. *)
Theorem add_monthly_recipes_accepts self page w :
  let out := HelloFresh.add_monthly_recipes self page w in
  ((∃ self', fst out = Return self') ↔ page_ok page = true)
  ∧ (page_ok page = false →
     ∃ e, fst out = Raise e ∧ e ∈ [KeyError; TypeError])
  ∧ trace (snd out) = trace w.
Proof.
  intros out. subst out.
  pose proof (add_monthly_recipes_run self page w) as H.
  pose proof (add_monthly_recipes_quiet self page w) as Hq.
  apply grows_0_trace in Hq.
  destruct (page_ok page).
  - destruct H as (self' & w' & H). rewrite H in *. simpl in *.
    split; [split; eauto|]. split; [discriminate|exact Hq].
  - destruct H as (e & w' & H & He). rewrite H in *. simpl in *.
    split; [split; [intros [self' Hs]|]; discriminate|].
    split; [eauto|exact Hq].
Qed.

Lemma add_monthly_recipes_accepts_witness :
  ∃ e, fst (HelloFresh.add_monthly_recipes a_client
              (JObj [("weeks", JArr [week [meal "u1"; JObj []]])])
              (start (scripted []) a_day)) = Raise e
       ∧ e ∈ [KeyError; TypeError].
Proof.
  exact (proj1 (proj2 (add_monthly_recipes_accepts a_client
                         (JObj [("weeks", JArr [week [meal "u1"; JObj []]])])
                         (start (scripted []) a_day))) eq_refl).
Defined.

(** X2: a page that [add_monthly_recipes] goes through only adds to the
    collection: what was collected stays, the query parameters, headers
    and endpoint of the client are untouched, and going through the same
    page again changes nothing. *)
Theorem add_monthly_recipes_only_adds self page w self' w' :
  HelloFresh.add_monthly_recipes self page w = (Return self', w') →
  HelloFresh.recipes self ⊆ HelloFresh.recipes self'
  ∧ HelloFresh.params self' = HelloFresh.params self
  ∧ HelloFresh.headers self' = HelloFresh.headers self
  ∧ HelloFresh.base_url self' = HelloFresh.base_url self
  ∧ ∀ w2 self2 w2',
      HelloFresh.add_monthly_recipes self' page w2 = (Return self2, w2') →
      self2 = self'.
Proof.
  intros H. apply add_monthly_recipes_Return in H. subst self'. simpl.
  split; [set_solver|]. repeat split.
  intros w2 self2 w2' H2. apply add_monthly_recipes_Return in H2.
  subst self2. unfold HelloFresh.with_recipes. simpl. f_equal. set_solver.
Qed.

Lemma add_monthly_recipes_only_adds_witness :
  let out := HelloFresh.add_monthly_recipes a_client last_page
               (start (scripted []) a_day) in
  HelloFresh.recipes a_client
  ⊆ HelloFresh.recipes (result_of a_client (fst out))
  ∧ HelloFresh.params (result_of a_client (fst out))
    = HelloFresh.params a_client.
Proof.
  intros out.
  assert (Hrun : HelloFresh.add_monthly_recipes a_client last_page
                   (start (scripted []) a_day)
                 = (Return (result_of a_client (fst out)), snd out))
    by (vm_compute; reflexivity).
  destruct (add_monthly_recipes_only_adds _ _ _ _ _ Hrun)
    as (Hsub & Hparams & _).
  split; [exact Hsub|exact Hparams].
Defined.

(** ** Following the cursor *)

(** X3: the pagination follows the server's cursor.  Whatever the outcome
    of [get_past_deliveries], its first fetch is the delivery request of
    the client as it stands, and every further fetch is that same request
    with [from] set to the [nextWeek] of the page fetched just before: no
    other parameter, header or URL changes, and no cursor is skipped. *)
Theorem get_past_deliveries_follows_cursor self n w :
  ∃ fetched,
    trace (snd (HelloFresh.get_past_deliveries self n w)) = trace w ++ fetched
    ∧ follows (deliveries_request self) fetched.
Proof.
  unfold HelloFresh.get_past_deliveries.
  change ((logging DEBUG GettingLastMonth ;;
           HelloFresh.past_deliveries_loop (Z.to_nat n) self n) w)
    with (HelloFresh.past_deliveries_loop (Z.to_nat n) self n
            (logged w DEBUG GettingLastMonth)).
  apply (past_deliveries_loop_follows (Z.to_nat n) self n
           (logged w DEBUG GettingLastMonth)).
Qed.

(** ** How many pages, and what ends the loop *)

Lemma past_deliveries_loop_exact fuel self n w :
  n = Z.of_nat fuel →
  (∀ history rq, ∃ page next_week,
     accepted (net w history rq) = Some page
     ∧ page_ok page = true
     ∧ field "nextWeek" page = Some next_week) →
  ∃ self' w' fetched,
    HelloFresh.past_deliveries_loop fuel self n w = (Return self', w')
    ∧ trace w' = trace w ++ fetched
    ∧ length fetched = S fuel.
Proof.
  revert self n w. induction fuel as [|fuel IH]; intros self n w Hn Hnet.
  all: match goal with
       | |- context [HelloFresh.past_deliveries_loop ?f _ _ _] =>
           pose proof (past_deliveries_loop_round f self n w) as R
       end;
    cbv zeta in R;
    destruct (Hnet (trace w) (deliveries_request self))
      as (page & next & Hacc & Hok & Hnext);
    rewrite Hacc in R;
    pose proof (add_monthly_recipes_run self page
                  (exchanged w (deliveries_request self))) as Hrun;
    rewrite Hok in Hrun; destruct Hrun as (self1 & w2 & Hrun);
    pose proof (add_monthly_recipes_quiet self page
                  (exchanged w (deliveries_request self))) as Hq;
    rewrite Hrun in *; simpl in Hq;
    pose proof (grows_0_trace _ _ _ Hq) as Ht2;
    destruct Hq as (Hnet2 & _).
  - assert (Hz : (0 <? n) = false) by (apply Z.ltb_ge; lia).
    rewrite Hz in R. rewrite R. eexists _, _, _.
    split; [reflexivity|]. rewrite Ht2. simpl. split; reflexivity.
  - assert (Hpos : (0 <? n) = true) by (apply Z.ltb_lt; lia).
    rewrite Hpos, Hnext in R. rewrite R.
    destruct (IH (HelloFresh.set_param self1 "from" next) (n - 1)
                (logged w2 DEBUG GettingMore)) as (self' & w' & fetched & H);
      [lia|by simpl; rewrite Hnet2|].
    destruct H as (Hloop & Ht & Hlen). rewrite Hloop.
    eexists _, _, _. split; [reflexivity|]. rewrite Ht. simpl.
    rewrite Ht2. simpl. rewrite <- app_assoc. split; [reflexivity|].
    simpl. by rewrite Hlen.
Qed.

(** X4: the page budget is spent in full when the history goes on.  With
    a budget [extra_pages >= 0] and a provider all of whose answers are
    well-formed pages that name a next week, [get_past_deliveries]
    completes after exactly [extra_pages + 1] fetches. *)
Theorem get_past_deliveries_spends_budget self n w :
  0 ≤ n →
  (∀ history rq, ∃ page next_week,
     accepted (net w history rq) = Some page
     ∧ page_ok page = true
     ∧ field "nextWeek" page = Some next_week) →
  ∃ self' w' fetched,
    HelloFresh.get_past_deliveries self n w = (Return self', w')
    ∧ trace w' = trace w ++ fetched
    ∧ Z.of_nat (length fetched) = n + 1.
Proof.
  intros Hn Hnet. unfold HelloFresh.get_past_deliveries.
  change ((logging DEBUG GettingLastMonth ;;
           HelloFresh.past_deliveries_loop (Z.to_nat n) self n) w)
    with (HelloFresh.past_deliveries_loop (Z.to_nat n) self n
            (logged w DEBUG GettingLastMonth)).
  destruct (past_deliveries_loop_exact (Z.to_nat n) self n
              (logged w DEBUG GettingLastMonth))
    as (self' & w' & fetched & Hloop & Ht & Hlen); [lia|exact Hnet|].
  exists self', w', fetched. split; [done|]. split; [done|]. lia.
Qed.

Lemma get_past_deliveries_spends_budget_witness :
  ∃ self' w' fetched,
    HelloFresh.get_past_deliveries a_client 2
      (start (endless first_page) a_day) = (Return self', w')
    ∧ trace w' = [] ++ fetched
    ∧ Z.of_nat (length fetched) = 2 + 1.
Proof.
  apply (get_past_deliveries_spends_budget a_client 2
           (start (endless first_page) a_day)); [lia|].
  intros history rq. exists first_page, (JStr "2024-W51").
  repeat split; reflexivity.
Defined.

(** The outcomes of the loop: completion, the fatal exit of the HTTP
    wrapper, one of two exceptions of a malformed page, or no fuel. *)
Lemma past_deliveries_loop_outcomes fuel self n w :
  let r := fst (HelloFresh.past_deliveries_loop fuel self n w) in
  (∃ self', r = Return self') ∨ r = SysExit 1 ∨ r = Raise KeyError
  ∨ r = Raise TypeError ∨ r = OutOfFuel.
Proof.
  revert self n w. induction fuel as [|fuel IH]; intros self n w.
  all: match goal with
       | |- context [HelloFresh.past_deliveries_loop ?f _ _ _] =>
           pose proof (past_deliveries_loop_round f self n w) as R
       end;
    cbv zeta in R;
    destruct (accepted (net w (trace w) (deliveries_request self)))
      as [page|];
    [|destruct R as [msg ->]; simpl; auto];
    pose proof (add_monthly_recipes_run self page
                  (exchanged w (deliveries_request self))) as Hrun;
    destruct (page_ok page);
    [destruct Hrun as (self1 & w2 & Hrun)
    |destruct Hrun as (e & w2 & Hrun & He)];
    rewrite Hrun in R.
  2,4: rewrite R; simpl;
    apply list_elem_of_In in He; simpl in He;
    destruct He as [ <- | [ <- | [] ] ]; auto.
  - destruct (0 <? n); [destruct (field "nextWeek" page)|];
      rewrite R; simpl; eauto 6.
  - destruct (0 <? n); [destruct (field "nextWeek" page)|];
      rewrite R; simpl; eauto 6.
Qed.

(** X5: [get_past_deliveries] ends in one of three ways only: it
    completes, the HTTP wrapper exits with code 1, or a malformed page
    raises KeyError or TypeError.  The [except KeyError] of the loop guards
    the cursor lookup alone: a fetched page that is not well-formed is
    never skipped, at any round and whatever the budget, the exception
    leaves the loop right after that fetch. *)
Theorem get_past_deliveries_outcomes self n w :
  (let r := fst (HelloFresh.get_past_deliveries self n w) in
   (∃ self', r = Return self') ∨ r = SysExit 1 ∨ r = Raise KeyError
   ∨ r = Raise TypeError)
  ∧ (∀ fuel self0 k w0 page,
       accepted (net w0 (trace w0) (deliveries_request self0)) = Some page →
       page_ok page = false →
       ∃ e w1,
         HelloFresh.past_deliveries_loop fuel self0 k w0 = (Raise e, w1)
         ∧ e ∈ [KeyError; TypeError]
         ∧ trace w1 = trace w0 ++ [(deliveries_request self0,
                                    net w0 (trace w0)
                                      (deliveries_request self0))]).
Proof.
  split.
  - unfold HelloFresh.get_past_deliveries.
    change ((logging DEBUG GettingLastMonth ;;
             HelloFresh.past_deliveries_loop (Z.to_nat n) self n) w)
      with (HelloFresh.past_deliveries_loop (Z.to_nat n) self n
              (logged w DEBUG GettingLastMonth)).
    pose proof (past_deliveries_loop_total (Z.to_nat n) self n
                  (logged w DEBUG GettingLastMonth) (le_n _)) as Htot.
    destruct (past_deliveries_loop_outcomes (Z.to_nat n) self n
                (logged w DEBUG GettingLastMonth))
      as [H|[H|[H|[H|H]]]]; auto. by destruct Htot.
  - intros fuel self0 k w0 page Hacc Hbad.
    pose proof (past_deliveries_loop_round fuel self0 k w0) as R.
    cbv zeta in R. rewrite Hacc in R.
    pose proof (add_monthly_recipes_run self0 page
                  (exchanged w0 (deliveries_request self0))) as Hrun.
    pose proof (add_monthly_recipes_quiet self0 page
                  (exchanged w0 (deliveries_request self0))) as Hq.
    rewrite Hbad in Hrun. destruct Hrun as (e & w1 & Hrun & He).
    rewrite Hrun in *. simpl in Hq. apply grows_0_trace in Hq.
    exists e, w1. by repeat split.
Qed.

Lemma get_past_deliveries_outcomes_witness :
  ∃ e w1,
    HelloFresh.past_deliveries_loop 3 a_client 3
      (start (scripted [good (JObj [("nextWeek", JStr "2024-W51")])]) a_day)
    = (Raise e, w1)
    ∧ e ∈ [KeyError; TypeError]
    ∧ length (trace w1) = 1%nat.
Proof.
  destruct (proj2 (get_past_deliveries_outcomes a_client 3
                     (start (scripted []) a_day))
              3%nat a_client 3
              (start (scripted [good (JObj [("nextWeek", JStr "2024-W51")])])
                 a_day)
              (JObj [("nextWeek", JStr "2024-W51")]) eq_refl eq_refl)
    as (e & w1 & Hrun & He & Ht).
  exists e, w1. split; [exact Hrun|]. split; [exact He|].
  by rewrite Ht.
Defined.

(** ** Credentials and query parameters *)

(** X6: [main] needs both credentials before it does anything.  When
    [hellofresh_token] or [mealie_token] is not in the environment, it
    logs one error that names the missing variable (the provider's first)
    and exits with code 1, without a single HTTP exchange. *)
Theorem main_needs_both_tokens py_str set_order a w name :
  missing_credential w = Some name →
  main py_str set_order a w
  = (SysExit 1, logged w ERROR (MissingEnvVar name)).
Proof.
  unfold missing_credential, main, bind, getenv.
  destruct (environ w "hellofresh_token") as [ht|].
  - destruct (environ w "mealie_token") as [mt|]; [discriminate|].
    intros H. by inversion H.
  - intros H. by inversion H.
Qed.

Lemma main_needs_both_tokens_witness :
  main str_of_scalar elements live_args no_mealie_token
  = (SysExit 1, logged no_mealie_token ERROR (MissingEnvVar "MEALIE_TOKEN")).
Proof.
  exact (main_needs_both_tokens str_of_scalar elements live_args
           no_mealie_token "MEALIE_TOKEN" eq_refl).
Defined.


(** The country and the language [main] hands to [__init__] are made of
    ASCII letters. *)
Lemma eligible_choices_ascii :
  forallb ascii_only eligible_countries = true
  ∧ forallb ascii_only eligible_languages = true.
Proof. split; reflexivity. Qed.




(** ** The tagged recipes of the destination *)

Lemma tagged_loop_Return (found : list json) acc w urls w' :
  for_each found (λ (acc : gset hashable) recipe,
    org_url <- lift (getitem_str recipe "orgURL") ;;
    h <- lift (py_hash org_url) ;;
    ret ({[h]} ∪ acc)) acc w = (Return urls, w') →
  urls = acc ∪ list_to_set (omap key_of (omap (field "orgURL") found))
  ∧ w' = w.
Proof.
  revert acc w. induction found as [|recipe found IH]; intros acc w H.
  - inversion H; subst. simpl. split; [set_solver|done].
  - apply for_each_cons_Return_inv in H as (acc1 & w1 & H1 & H).
    apply bind_Return_inv in H1 as (u & w2 & Hu & H1).
    apply lift_Return_inv in Hu as [Hu ->].
    apply bind_Return_inv in H1 as (h & w3 & Hh & H1).
    apply lift_Return_inv in Hh as [Hh ->].
    inversion H1; subst. apply IH in H as [-> ->].
    apply getitem_str_Return in Hu. apply py_hash_Return in Hh.
    simpl. rewrite Hu. simpl. rewrite Hh. simpl. split; [set_solver|done].
Qed.

Lemma get_tag_Return_inv m w t w' :
  Mealie.get_tag m w = (Return t, w') → Mealie.tag m = Some t ∧ w' = w.
Proof.
  unfold Mealie.get_tag. destruct (Mealie.tag m); intros H; by inversion H.
Qed.

(** X8: what a completed [get_tagged_recipes] has done.  After the tag is
    resolved, it probes the recipes of the tag with [perPage = 0], asks
    again with [perPage] set to the [total] that the probe answered, and
    replaces the tagged collection (it does not add to it) by the set of
    the [orgURL] values of the items of that second answer. *)
Theorem get_tagged_recipes_result self tag w self' w' :
  Mealie.get_tagged_recipes self tag w = (Return self', w') →
  ∃ self1 w1 the_tag counted total listed r2,
    Mealie.set_tag_id self tag w = (Return self1, w1)
    ∧ Mealie.tag self1 = Some the_tag
    ∧ accepted (net w1 (trace w1)
                  (recipes_request self1 the_tag (JNum 0))) = Some counted
    ∧ field "total" counted = Some total
    ∧ trace w'
      = trace w1
        ++ [(recipes_request self1 the_tag (JNum 0),
             net w1 (trace w1) (recipes_request self1 the_tag (JNum 0)));
            (recipes_request self1 the_tag total, r2)]
    ∧ accepted r2 = Some listed
    ∧ self' = Mealie.set_tagged_recipes self1
                (list_to_set (omap key_of (org_urls listed))).
Proof.
  unfold Mealie.get_tagged_recipes. intros H.
  apply bind_Return_inv in H as (self1 & w1 & H1 & H).
  apply bind_Return_inv in H as (t & w2 & Ht & H).
  apply get_tag_Return_inv in Ht as [Htag ->].
  apply bind_Return_inv in H as (counted & w3 & Hc & H).
  apply json_request_Return_inv in Hc as (_ & Hacc1 & ->).
  apply bind_Return_inv in H as (total & w4 & Htot & H).
  apply lift_Return_inv in Htot as [Htot ->].
  apply bind_Return_inv in H as (t' & w5 & Ht' & H).
  apply get_tag_Return_inv in Ht' as [Htag' ->].
  rewrite Htag in Htag'. inversion Htag'; subst t'.
  apply bind_Return_inv in H as (listed & w6 & Hl & H).
  apply json_request_Return_inv in Hl as (_ & Hacc2 & ->).
  apply bind_Return_inv in H as (items & w7 & Hi & H).
  apply lift_Return_inv in Hi as [Hi ->].
  apply bind_Return_inv in H as (found & w8 & Hf & H).
  apply lift_Return_inv in Hf as [Hf ->].
  apply bind_Return_inv in H as (urls & w9 & Hloop & H).
  assert (Hmem : found = members (Some items)).
  { eapply (iterated_members items found _ _ _ _ _ Hf); [|exact Hloop].
    intros st s w0 st' w0' Hs.
    apply bind_Return_inv in Hs as (u & ? & Hu & _).
    by apply lift_Return_inv in Hu as [Hu _]. }
  apply tagged_loop_Return in Hloop as [-> ->]. inversion H; subst.
  apply getitem_str_Return in Htot, Hi.
  exists self1, w1, t, counted, total, listed. eexists.
  split; [done|]. split; [done|]. split; [exact Hacc1|]. split; [done|].
  split; [simpl; by rewrite <- app_assoc|]. split; [exact Hacc2|].
  unfold org_urls. rewrite Hi. f_equal. set_solver.
Qed.

Lemma get_tagged_recipes_result_witness :
  let w := start (scripted [good (JObj [("items", JArr [a_tag])]);
                            good a_listing; good a_listing]) a_day in
  let out := Mealie.get_tagged_recipes b_catalog "HelloFresh" w in
  ∃ self1 w1 the_tag counted total listed r2,
    Mealie.set_tag_id b_catalog "HelloFresh" w = (Return self1, w1)
    ∧ Mealie.tag self1 = Some the_tag
    ∧ accepted (net w1 (trace w1)
                  (recipes_request self1 the_tag (JNum 0))) = Some counted
    ∧ field "total" counted = Some total
    ∧ trace (snd out)
      = trace w1
        ++ [(recipes_request self1 the_tag (JNum 0),
             net w1 (trace w1) (recipes_request self1 the_tag (JNum 0)));
            (recipes_request self1 the_tag total, r2)]
    ∧ accepted r2 = Some listed
    ∧ result_of b_catalog (fst out)
      = Mealie.set_tagged_recipes self1
          (list_to_set (omap key_of (org_urls listed))).
Proof.
  intros w out.
  assert (Hrun : Mealie.get_tagged_recipes b_catalog "HelloFresh" w
                 = (Return (result_of b_catalog (fst out)), snd out))
    by (vm_compute; reflexivity).
  exact (get_tagged_recipes_result b_catalog "HelloFresh" w _ _ Hrun).
Defined.

(** A catalog that held {B} as tagged and lists an imported recipe and a
    hand-written one: the tagged collection becomes {u1, None}, the second
    request asks for the two recipes the probe counted. *)
Example tagged_recipes_replaced :
  let out := Mealie.get_tagged_recipes b_catalog "HelloFresh"
               (start (scripted [good (JObj [("items", JArr [a_tag])]);
                                 good a_listing; good a_listing]) a_day) in
  Mealie.tagged_recipes (result_of b_catalog (fst out))
  = {[HStr "u1"; HNone]}
  ∧ map (λ e : exchange, params (fst e)) (trace (snd out))
    = [Some [("search", JStr "HelloFresh")];
       Some [("tags", a_tag); ("perPage", JNum 0)];
       Some [("tags", a_tag); ("perPage", JNum 2)]].
Proof.
  intros out. split; [|vm_compute; reflexivity].
  apply (bool_decide_unpack _). vm_compute. exact I.
Qed.

(** ** Imports that go wrong *)

(** X9: [update_mealie_recipe] sends its PATCH only for a document it
    could tag.  When the fetched document is not an object with a list
    under [tags] (or no tag has been resolved), the function raises
    KeyError, TypeError or AttributeError right after the fetch: no PATCH
    is sent, so the recipe is left as the destination stored it. *)
Theorem update_mealie_recipe_needs_tag_list py_str self slug w doc :
  accepted (net w (trace w) (recipe_request py_str self slug)) = Some doc →
  match Mealie.tag self with
  | Some t => with_tag_appended doc t
  | None => None
  end = None →
  ∃ e, Mealie.update_mealie_recipe py_str self slug w
       = (Raise e,
          exchanged (logged w DEBUG GettingRecipeId)
            (recipe_request py_str self slug))
       ∧ e ∈ [KeyError; TypeError; AttributeError].
Proof.
  intros Hacc Hbad. unfold Mealie.update_mealie_recipe.
  rewrite (bind_Return _ _ _ _ _
             (get_mealie_recipe_accepted _ _ _ _ _ Hacc)).
  destruct (append_tag_fails self doc
              (exchanged (logged w DEBUG GettingRecipeId)
                 (recipe_request py_str self slug)) Hbad) as (e & He & Hin).
  exists e. split; [|done]. by rewrite (bind_Raise _ _ _ _ _ He).
Qed.

Lemma update_mealie_recipe_needs_tag_list_witness :
  ∃ e, Mealie.update_mealie_recipe str_of_scalar a_catalog (JStr "pasta")
         (start (scripted [good (JObj [("name", JStr "Pasta");
                                       ("tags", JNull)])]) a_day)
       = (Raise e,
          exchanged
            (logged
               (start (scripted [good (JObj [("name", JStr "Pasta");
                                             ("tags", JNull)])]) a_day)
               DEBUG GettingRecipeId)
            (recipe_request str_of_scalar a_catalog (JStr "pasta")))
       ∧ e ∈ [KeyError; TypeError; AttributeError].
Proof.
  exact (update_mealie_recipe_needs_tag_list str_of_scalar a_catalog
           (JStr "pasta")
           (start (scripted [good (JObj [("name", JStr "Pasta");
                                         ("tags", JNull)])]) a_day)
           (JObj [("name", JStr "Pasta"); ("tags", JNull)])
           eq_refl eq_refl).
Defined.

(** Whatever its outcome, one round of the live loop makes the creation
    call of its element, and no other. *)
Lemma import_creations_any py_str m u w :
  ∃ es, trace (snd ((recipe_slug <- Mealie.add_mealie_recipe m u ;;
                     Mealie.update_mealie_recipe py_str m recipe_slug) w))
        = trace w ++ es
        ∧ creations es = [creation_request m u].
Proof.
  pose proof (add_mealie_recipe_trace m u w) as Ha. unfold bind.
  destruct (Mealie.add_mealie_recipe m u w) as [[slug|e|c|] w1];
    simpl in Ha; try (eexists; split; [exact Ha|done]).
  destruct (update_mealie_recipe_calls py_str m slug w1)
    as (es & Ht & Hc & _).
  rewrite Ht, Ha, <- app_assoc. eexists. split; [reflexivity|].
  rewrite creations_app, (creations_none es Hc). done.
Qed.

Lemma live_loop_creations py_str m (l : list hashable) w :
  let out := for_each l (λ (_ : unit) new_recipe,
               recipe_slug <- Mealie.add_mealie_recipe m
                                (json_of_hashable new_recipe) ;;
               Mealie.update_mealie_recipe py_str m recipe_slug) tt w in
  ∃ es k,
    trace (snd out) = trace w ++ es
    ∧ creations es
      = map (λ u, creation_request m (json_of_hashable u)) (take k l)
    ∧ (fst out = Return tt → k = length l).
Proof.
  cbv zeta. revert w. induction l as [|u l IH]; intros w.
  - exists [], 0%nat. simpl. by rewrite app_nil_r.
  - destruct (import_creations_any py_str m (json_of_hashable u) w)
      as (es & Ht & Hc).
    simpl for_each.
    destruct ((recipe_slug <- Mealie.add_mealie_recipe m (json_of_hashable u) ;;
               Mealie.update_mealie_recipe py_str m recipe_slug) w)
      as [[[]|e|c|] w1] eqn:E; simpl in Ht.
    + rewrite (bind_Return _ _ _ _ _ E).
      destruct (IH w1) as (es' & k & Ht' & Hc' & Hk).
      exists (es ++ es'), (S k). rewrite Ht', Ht, <- app_assoc.
      split; [done|]. rewrite creations_app, Hc, Hc'. simpl.
      split; [done|]. intros Hr. by rewrite (Hk Hr).
    + rewrite (bind_Raise _ _ _ _ _ E). exists es, 1%nat. simpl.
      split; [exact Ht|]. split; [by rewrite Hc, ?take_0|discriminate].
    + rewrite (bind_SysExit _ _ _ _ _ E). exists es, 1%nat. simpl.
      split; [exact Ht|]. split; [by rewrite Hc, ?take_0|discriminate].
    + rewrite (bind_OutOfFuel _ _ _ _ E). exists es, 1%nat. simpl.
      split; [exact Ht|]. split; [by rewrite Hc, ?take_0|discriminate].
Qed.

(** X10: the live run creates the missing recipes in the order in which
    it walks the set, one creation call each, without skipping or
    repeating any.  Whatever the outcome, the creation calls of the run
    are those of the first [k] elements walked, in that order; [k] is the
    whole set when the run completes, and a run that fails has created a
    prefix and nothing after it. *)
Theorem live_run_creates_in_order py_str set_order a hf m w :
  dry_run a = false →
  let walked := set_order (HelloFresh.recipes hf ∖ Mealie.tagged_recipes m) in
  let out := reconcile py_str set_order a hf m w in
  ∃ sent k,
    trace (snd out) = trace w ++ sent
    ∧ creations sent
      = map (λ u, creation_request m (json_of_hashable u)) (take k walked)
    ∧ (fst out = Return tt → k = length walked).
Proof.
  intros Hlive walked out. subst out. unfold reconcile. rewrite Hlive.
  apply live_loop_creations.
Qed.

Lemma live_run_creates_in_order_witness :
  let w := start (scripted [good (JStr "pasta"); good (JObj a_recipe)])
             a_day in
  let out := reconcile str_of_scalar elements live_args abc_client b_catalog
               w in
  ∃ sent k,
    trace (snd out) = trace w ++ sent
    ∧ creations sent
      = map (λ u, creation_request b_catalog (json_of_hashable u))
          (take k (elements (HelloFresh.recipes abc_client
                             ∖ Mealie.tagged_recipes b_catalog)))
    ∧ (fst out = Return tt
       → k = length (elements (HelloFresh.recipes abc_client
                               ∖ Mealie.tagged_recipes b_catalog))).
Proof.
  exact (live_run_creates_in_order str_of_scalar elements live_args
           abc_client b_catalog
           (start (scripted [good (JStr "pasta"); good (JObj a_recipe)])
              a_day) eq_refl).
Defined.

(** ** Each credential to its own service *)


















(** ** When a tag is created *)

(** X12: [set_tag_id] creates a tag only after a search that found
    nothing.  Whatever its outcome, the function makes the search and
    then either nothing more, or the one creation call; and the creation
    call is made only if the search was answered with a document whose
    [items] is empty (falsy).  A search that fails, or an answer without
    [items], never leads to a creation. *)
Theorem set_tag_id_creates_only_when_missing self tag w :
  let search := (tag_search_request self tag,
                 net w (trace w) (tag_search_request self tag)) in
  let sent := trace (snd (Mealie.set_tag_id self tag w)) in
  sent = trace w ++ [search]
  ∨ ∃ r res items,
      sent = trace w ++ [search; (tag_creation_request self tag, r)]
      ∧ accepted (snd search) = Some res
      ∧ field "items" res = Some items
      ∧ truthy items = false.
Proof.
  intros search sent. subst sent search. simpl snd at 2.
  set (w1 := exchanged (logged w DEBUG (GettingTagInfos tag))
               (tag_search_request self tag)).
  destruct (accepted (net w (trace w) (tag_search_request self tag)))
    as [res|] eqn:Hacc.
  - destruct (field "items" res) as [items|] eqn:Hitems.
    + destruct (truthy items) eqn:Ht.
      * left. unfold Mealie.set_tag_id.
        rewrite (bind_Return _ _ _ tt (logged w DEBUG (GettingTagInfos tag)))
          by done.
        rewrite (bind_Return _ _ _ res w1)
          by (by apply json_request_accepted).
        apply getitem_str_Return in Hitems.
        unfold bind, lift, ret. rewrite Hitems, Ht. simpl negb. cbv iota.
        by destruct (getitem_int items 0).
      * right. rewrite (set_tag_id_missing _ _ _ _ _ Hacc Hitems Ht).
        rewrite create_tag_trace. simpl. rewrite <- app_assoc.
        eexists _, res, items. by repeat split.
    + left. unfold Mealie.set_tag_id.
      rewrite (bind_Return _ _ _ tt (logged w DEBUG (GettingTagInfos tag)))
        by done.
      rewrite (bind_Return _ _ _ res w1)
        by (by apply json_request_accepted).
      assert (Hraise : ∃ e, getitem_str res "items" = Raise e).
      { destruct (getitem_str res "items") as [v|e|c|] eqn:E; eauto.
        - apply getitem_str_Return in E. congruence.
        - exfalso. revert E. destruct res; simpl; try discriminate.
          by destruct (dict_get "items" _).
        - by apply getitem_str_total in E. }
      destruct Hraise as [e He]. unfold bind, lift. by rewrite He.
  - left. unfold Mealie.set_tag_id.
    rewrite (bind_Return _ _ _ tt (logged w DEBUG (GettingTagInfos tag)))
      by done.
    destruct (json_request_rejected
                (Mealie.base_url self +:+ "/api/organizers/tags") "get"
                (Some (Mealie.headers self)) (Some [("search", JStr tag)])
                None (logged w DEBUG (GettingTagInfos tag)))
      as [msg Hr]; [done..|].
    by rewrite (bind_SysExit _ _ _ _ _ Hr).
Qed.

(** ** What the pagination leaves of the client *)

Lemma past_deliveries_loop_keeps fuel self n w self' w' :
  HelloFresh.past_deliveries_loop fuel self n w = (Return self', w') →
  HelloFresh.base_url self' = HelloFresh.base_url self
  ∧ HelloFresh.headers self' = HelloFresh.headers self
  ∧ ∀ k, k ≠ "from" →
         dict_get k (HelloFresh.params self')
         = dict_get k (HelloFresh.params self).
Proof.
  revert self n w. induction fuel as [|fuel IH]; intros self n w H.
  all: match type of H with
       | HelloFresh.past_deliveries_loop ?f _ _ _ = _ =>
           pose proof (past_deliveries_loop_round f self n w) as R
       end;
    cbv zeta in R;
    destruct (accepted (net w (trace w) (deliveries_request self)))
      as [page|];
      [|destruct R as [msg R]; rewrite R in H; discriminate];
    pose proof (add_monthly_recipes_Return self page
                  (exchanged w (deliveries_request self))) as Hret;
    destruct (HelloFresh.add_monthly_recipes self page
                (exchanged w (deliveries_request self)))
      as [[self1|e|c|] w2]; try (rewrite R in H; discriminate);
    pose proof (Hret self1 w2 eq_refl) as Hs; subst self1;
    destruct (0 <? n);
      [destruct (field "nextWeek" page) as [next|]|];
    rewrite R in H; try discriminate;
    try (inversion H; subst; by repeat split).
  apply IH in H as (Hb & Hh & Hp). simpl in *.
  split; [done|]. split; [done|]. intros k Hk.
  rewrite (Hp k Hk). apply dict_get_set_ne. congruence.
Qed.

(** X13: the pagination only moves the cursor.  When
    [get_past_deliveries] completes, the client has the endpoint and the
    headers it had, every query parameter other than [from] has the value
    it had (country, locale and subscription are never touched), and the
    collection holds at least what it held. *)
Theorem get_past_deliveries_moves_only_the_cursor self n w self' w' :
  HelloFresh.get_past_deliveries self n w = (Return self', w') →
  HelloFresh.base_url self' = HelloFresh.base_url self
  ∧ HelloFresh.headers self' = HelloFresh.headers self
  ∧ (∀ k, k ≠ "from" →
          dict_get k (HelloFresh.params self')
          = dict_get k (HelloFresh.params self))
  ∧ HelloFresh.recipes self ⊆ HelloFresh.recipes self'.
Proof.
  unfold HelloFresh.get_past_deliveries. intros H.
  apply bind_Return_inv in H as ([] & w1 & _ & H).
  pose proof (past_deliveries_loop_keeps _ _ _ _ _ _ H) as (Hb & Hh & Hp).
  apply past_deliveries_loop_Return in H as (visited & _ & _ & Hrec).
  repeat split; auto. rewrite Hrec. set_solver.
Qed.

Lemma get_past_deliveries_moves_only_the_cursor_witness :
  let out := HelloFresh.get_past_deliveries
               (HelloFresh.set_param a_client "subscription" (JNum 7)) 1
               two_pages in
  dict_get "subscription"
    (HelloFresh.params
       (result_of a_client (fst out))) = Some (JNum 7).
Proof.
  intros out.
  assert (Hrun : HelloFresh.get_past_deliveries
                   (HelloFresh.set_param a_client "subscription" (JNum 7)) 1
                   two_pages
                 = (Return (result_of a_client (fst out)), snd out))
    by (vm_compute; reflexivity).
  destruct (get_past_deliveries_moves_only_the_cursor _ _ _ _ _ Hrun)
    as (_ & _ & Hp & _).
  by rewrite (Hp "subscription").
Defined.

(** ** The dry run as a preview *)

Section Preview.

Variable py_str : json → string.

(** The order of the walk in the process of the dry run, and in the
    process of the live run. *)
Variables order_dry order_live : gset hashable → list hashable.
Hypothesis order_dry_perm : ∀ X, order_dry X ≡ₚ elements X.
Hypothesis order_live_perm : ∀ X, order_live X ≡ₚ elements X.

(** X14: the dry run is a faithful preview of the live run, up to the
    order of the walk.  A dry run and a live run are two processes, and
    each walks the set of missing recipes in an order of its own.  On the
    same two collections, the URLs that the dry run lists in its log are,
    each once, the URLs that a live run which completes sends in its
    recipe-creation calls: the same URLs, as many times, in an order that
    may differ. *)
Theorem dry_run_previews_live_run a_dry a_live hf m w w_live w' :
  dry_run a_dry = true →
  dry_run a_live = false →
  reconcile py_str order_live a_live hf m w_live = (Return tt, w') →
  ∃ lines sent,
    log (snd (reconcile py_str order_dry a_dry hf m w)) = log w ++ lines
    ∧ trace w' = trace w_live ++ sent
    ∧ NoDup (reported lines)
    ∧ map (λ u, Some (JObj [("url", u)])) (reported lines)
      ≡ₚ map body (creations sent).
Proof.
  intros Hdry Hlive Hrun.
  set (missing := HelloFresh.recipes hf ∖ Mealie.tagged_recipes m).
  destruct (reconcile_dry_run py_str order_dry a_dry hf m w Hdry)
    as (_ & _ & _ & Hlog).
  pose proof (live_loop_creations py_str m (order_live missing) w_live) as Hc.
  cbv zeta in Hc. unfold reconcile in Hrun. rewrite Hlive in Hrun.
  fold missing in Hrun, Hlog. rewrite Hrun in Hc. simpl in Hc.
  destruct Hc as (sent & k & Ht & Hcr & Hk).
  exists (report order_dry missing), sent.
  split; [done|]. split; [done|].
  rewrite (report_walked order_dry order_dry_perm), reported_report_lines.
  split.
  - apply NoDup_fmap_2.
    + intros [] [] H; by inversion H.
    + rewrite (order_dry_perm missing). apply NoDup_elements.
  - rewrite Hcr, (Hk eq_refl), firstn_all, !map_map.
    apply Permutation_map.
    by rewrite (order_dry_perm missing), (order_live_perm missing).
Qed.

End Preview.

Lemma dry_run_previews_live_run_witness :
  let hf := abc_client in
  let m := b_catalog in
  let dry := reconcile str_of_scalar elements dry_args hf m
               (start (scripted []) a_day) in
  let live := reconcile str_of_scalar backwards live_args hf m
                (start (scripted two_imports) a_day) in
  ∃ lines sent,
    log (snd dry) = lines
    ∧ trace (snd live) = sent
    ∧ NoDup (reported lines)
    ∧ map (λ u, Some (JObj [("url", u)])) (reported lines)
      ≡ₚ map body (creations sent).
Proof.
  intros hf m dry live.
  assert (Hrun : reconcile str_of_scalar backwards live_args hf m
                   (start (scripted two_imports) a_day)
                 = (Return tt, snd live))
    by (clear; vm_compute; reflexivity).
  exact (dry_run_previews_live_run str_of_scalar elements backwards
           (λ X, reflexivity (elements X)) backwards_perm dry_args live_args
           hf m (start (scripted []) a_day)
           (start (scripted two_imports) a_day) (snd live)
           eq_refl eq_refl Hrun).
Defined.

(** The two runs walk the two missing recipes in opposite orders. *)
Example preview_in_another_order :
  let dry := reconcile str_of_scalar elements dry_args abc_client b_catalog
               (start (scripted []) a_day) in
  let live := reconcile str_of_scalar backwards live_args abc_client
                b_catalog (start (scripted two_imports) a_day) in
  map (λ u, Some (JObj [("url", u)])) (reported (log (snd dry)))
  = reverse (map body (creations (trace (snd live)))).
Proof. vm_compute. reflexivity. Qed.
